(** * A shallow embedding of [nursepy.preproc] (src/nursepy/preproc.py)

    The function validates its keyword arguments by their runtime type,
    copies the input data frames, builds a [ColumnTransformer] plan
    (automatic or manual), fits it on the training frame, transforms the
    training and test frames, renames the output columns and finally
    label-encodes the requested columns in place.

    Modelling choices:
    - Python argument values are [pyval]; their runtime type is [pytype].
      Column lists hold column names (strings).
    - Data frames live in a store (a list indexed by references), so that
      copies, fresh frames and the in-place column assignments of the label
      encoding pass are explicit; [M] is a state and exception monad over it.
    - The numeric kernels of scikit-learn (median imputation, standard and
      robust scaling) are floating-point library code: they are parameters
      of the development ([median_imputer], [standard_scaler], [robust_scaler]),
      each mapping the fitted training column and a column to transform to
      the transformed column.  The constant imputer, the one-hot encoder and
      the label encoder are modelled concretely.
    - Numeric cells are integers ([CNum]); a float64 array holds them
      rounded to the nearest double ([round_f64]).  The column transformer
      selects columns by name, reads a group of columns as one array with
      pandas' common dtype, and stacks its outputs with numpy's promotion
      ([np_hstack]); the frame built from the result has that one dtype.
    - Not modelled: the sparse output of the column transformer (chosen
      when the one-hot output is sparse and the overall density is below
      0.3), the input checks of the numeric kernels (non-numeric data for the
      median imputer and the scalers), and the float formatting of the
      categories of a float column in the one-hot names ([str(1.0)] is
      ["1.0"]).  On such inputs the model may return where the code raises. *)

From Stdlib Require Import ZArith Ascii String Sorted Permutation.
From stdpp Require Import base list strings.

Open Scope string_scope.
Open Scope list_scope.

(* ------------------------------------------------------------------ *)
(** ** Python values and their runtime types *)

Inductive pytype :=
  | TDataFrame | TNoneType | TBool | TInt | TStr
  | TList | TNdarray | TTuple | TDict.

#[global] Instance pytype_eq_dec : EqDecision pytype.
Proof. solve_decision. Defined.

(** A reference to a data frame object in the store. *)
Abbreviation ref := nat.

Inductive pyval :=
  | PDataFrame (r : ref)
  | PNone
  | PBool (b : bool)
  | PInt (z : Z)
  | PStr (s : string)
  | PList (xs : list string)
  | PNdarray (xs : list string)
  | PTuple (xs : list string)
  | PDict (kvs : list (string * list string)).

(** [type(v)] *)
Definition type_of (v : pyval) : pytype :=
  match v with
  | PDataFrame _ => TDataFrame
  | PNone => TNoneType
  | PBool _ => TBool
  | PInt _ => TInt
  | PStr _ => TStr
  | PList _ => TList
  | PNdarray _ => TNdarray
  | PTuple _ => TTuple
  | PDict _ => TDict
  end.

(** [len(v)] on the sequence-like values. *)
Definition py_len (v : pyval) : nat :=
  match v with
  | PList xs | PNdarray xs | PTuple xs => length xs
  | PDict kvs => length kvs
  | PStr s => String.length s
  | _ => 0
  end.

(** The elements of a list or array of column names. *)
Definition seq_of (v : pyval) : list string :=
  match v with
  | PList xs | PNdarray xs | PTuple xs => xs
  | _ => []
  end.

(* ------------------------------------------------------------------ *)
(** ** Data frames *)

(** pandas dtypes. *)
Inductive dtype :=
  | DInt64 | DInt32 | DFloat64 | DFloat32
  | DObject | DBool | DCategory | DDatetime.

#[global] Instance dtype_eq_dec : EqDecision dtype.
Proof. solve_decision. Defined.

(** A cell; [CMissing] is a missing value (NaN / None). *)
Inductive cell :=
  | CNum (z : Z)
  | CStr (s : string)
  | CBool (b : bool)
  | CMissing.

#[global] Instance cell_eq_dec : EqDecision cell.
Proof. solve_decision. Defined.

Record column := mkcol {
  col_name : string;
  col_dtype : dtype;
  col_vals : list cell
}.

Record DataFrame := mkDF { df_cols : list column }.

(** [df.columns] *)
Definition df_names (t : DataFrame) : list string := map col_name (df_cols t).

(** Membership of a name in a list of names ([x in OHE]). *)
Definition mem (x : string) (l : list string) : bool := existsb (String.eqb x) l.

(* ------------------------------------------------------------------ *)
(** ** Errors and the state/exception monad over the frame store *)

Inductive err :=
  | TypeMismatch (arg : string) (permitted : list pytype) (actual : pytype)
      (** the [ValueError] of the argument type check *)
  | ConfigConflict
      (** the [Exception] raised when auto is combined with manual settings *)
  | UnseenLabel
      (** [LabelEncoder.transform]: "y contains previously unseen labels" *)
  | UnknownCategory (column : string)
      (** [OneHotEncoder.transform]: unknown category *)
  | LabelTypeError
      (** [LabelEncoder.transform] on a column that is not of object dtype:
          numpy's path applies [np.isnan] to the string classes
          ([TypeError]) *)
  | KeyError (key : string)
      (** [X[column]] in the label-encoding loop: the column is absent (or
          not unique) *)
  | NotAColumn
      (** [ColumnTransformer.fit]: "A given column is not a column of the
          dataframe" ([ValueError]) *)
  | NonUniqueColumns
      (** [ColumnTransformer.fit]: "Selected columns ... are not unique in
          dataframe" ([ValueError]) *)
  | ColumnsMissing
      (** [ColumnTransformer.transform]: a column seen in fit is missing from
          the frame ("columns are missing", [ValueError]), or occurs twice in
          it (the selection then has too many columns and a width check
          raises [ValueError]) *)
  | ImputerError
      (** [SimpleImputer(strategy='constant', fill_value='missing')] refuses
          its data ([ValueError]): at fit, data not of object dtype; at
          transform, a dtype that is neither numeric nor object, or missing
          values in a numeric array (the string fill value does not fit) *)
  | ShapeMismatch
      (** frame constructed with a wrong number of column names *)
  | SortTypeError
      (** sorting the categories: values of incomparable kinds *)
  | PromotionError
      (** [np.hstack] of blocks without a common dtype (datetime with a
          number, [TypeError]) *)
  | DanglingRef.
      (** no object behind a reference (cannot happen in Python) *)

Definition res (A : Type) : Type := (err + A)%type.

Abbreviation store := (list DataFrame).

Definition M (A : Type) : Type := store -> res A * store.

Definition ret {A} (a : A) : M A := fun s => (inr a, s).
Definition raise {A} (e : err) : M A := fun s => (inl e, s).
Definition bind {A B} (m : M A) (k : A -> M B) : M B :=
  fun s => match m s with
           | (inl e, s') => (inl e, s')
           | (inr a, s') => k a s'
           end.
Definition lift {A} (r : res A) : M A := fun s => (r, s).

Notation "x <- m ;; k" := (bind m (fun x => k))
  (at level 100, m at next level, right associativity).

Definition rbind {A B} (r : res A) (k : A -> res B) : res B :=
  match r with inl e => inl e | inr a => k a end.

Notation "x <-? r ;; k" := (rbind r (fun x => k))
  (at level 100, r at next level, right associativity).

Fixpoint rmap {A B} (f : A -> res B) (l : list A) : res (list B) :=
  match l with
  | [] => inr []
  | x :: l' => y <-? f x ;; ys <-? rmap f l' ;; inr (y :: ys)
  end.

(** Reading the object behind a reference. *)
Definition load (r : ref) : M DataFrame :=
  fun s => match s !! r with
           | Some t => (inr t, s)
           | None => (inl DanglingRef, s)
           end.

(** Allocating a new object. *)
Definition alloc (t : DataFrame) : M ref :=
  fun s => (inr (List.length s), s ++ [t]).

(** Overwriting the object behind a reference (in-place mutation). *)
Definition store_set (r : ref) (t : DataFrame) : M unit :=
  fun s => if decide (r < List.length s) then (inr tt, <[r:=t]> s)
           else (inl DanglingRef, s).

(** [df.copy()] *)
Definition df_copy (r : ref) : M ref := t <- load r ;; alloc t.

(* ------------------------------------------------------------------ *)
(** ** The argument type check (lines 42-59) *)

(** [arg_types], in the order of the dict literal. *)
Definition arg_types_dict : list (string * list pytype) :=
  [("X_train", [TDataFrame]);
   ("X_test", [TNoneType; TDataFrame]);
   ("auto", [TBool]);
   ("OHE", [TList; TNdarray]);
   ("standard_scale", [TList; TNdarray]);
   ("robust_scale", [TList; TNdarray]);
   ("numerical_impute", [TList; TNdarray]);
   ("categorical_impute", [TList; TNdarray]);
   ("label_encode", [TDict])].

(** [arg_types[arg_key]] *)
Definition arg_types (k : string) : list pytype :=
  match find (fun kv => String.eqb (fst kv) k) arg_types_dict with
  | Some (_, ts) => ts
  | None => []
  end.

(** [argument_type in arg_types[arg_key]] *)
Definition arg_ok (k : string) (v : pyval) : bool :=
  bool_decide (type_of v ∈ arg_types k).

(** The loop [for arg_key in args.keys(): ...]. *)
Fixpoint check_args (args : list (string * pyval)) : M unit :=
  match args with
  | [] => ret tt
  | (k, v) :: rest =>
      if arg_ok k v then check_args rest
      else raise (TypeMismatch k (arg_types k) (type_of v))
  end.

(** [args = locals().copy()] at the top of the body: the parameters in
    their declaration order. *)
Definition preproc_args (X_train X_test auto OHE standard_scale robust_scale
    numerical_impute categorical_impute label_encode : pyval)
    : list (string * pyval) :=
  [("X_train", X_train); ("X_test", X_test); ("auto", auto); ("OHE", OHE);
   ("standard_scale", standard_scale); ("robust_scale", robust_scale);
   ("numerical_impute", numerical_impute);
   ("categorical_impute", categorical_impute);
   ("label_encode", label_encode)].

(* ------------------------------------------------------------------ *)
(** ** Sorting, unique values and printing (numpy helpers) *)

Fixpoint insert_uniq {A} (eqb leb : A -> A -> bool) (x : A) (l : list A)
    : list A :=
  match l with
  | [] => [x]
  | y :: l' =>
      if eqb x y then l
      else if leb x y then x :: l
      else y :: insert_uniq eqb leb x l'
  end.

(** [np.unique]: the sorted distinct values. *)
Definition np_unique {A} (eqb leb : A -> A -> bool) (l : list A) : list A :=
  fold_right (insert_uniq eqb leb) [] l.

Definition cell_kind (c : cell) : nat :=
  match c with CNum _ => 0 | CStr _ => 1 | CBool _ => 2 | CMissing => 3 end.

Definition cell_eqb (a b : cell) : bool := bool_decide (a = b).

Definition cell_leb (a b : cell) : bool :=
  match a, b with
  | CNum x, CNum y => Z.leb x y
  | CStr x, CStr y => String.leb x y
  | CBool x, CBool y => implb x y
  | CMissing, CMissing => true
  | _, _ => false
  end.

Definition is_missing (v : cell) : bool :=
  match v with CMissing => true | _ => false end.

(** The categories [OneHotEncoder.fit] finds in a column ([_unique_python] /
    [np.unique]): the distinct non-missing values sorted (values of
    different kinds do not compare), then NaN last when present. *)
Definition np_unique_cells (l : list cell) : res (list cell) :=
  let present := List.filter (fun v => negb (is_missing v)) l in
  let nan := if existsb is_missing l then [CMissing] else [] in
  match present with
  | [] => inr nan
  | c :: _ =>
      if forallb (fun d => Nat.eqb (cell_kind d) (cell_kind c)) present
      then inr (np_unique cell_eqb cell_leb present ++ nan)
      else inl SortTypeError
  end.

Definition digit (d : Z) : ascii := ascii_of_nat (48 + Z.to_nat d).

Fixpoint digits_of (fuel : nat) (z : Z) (acc : string) : string :=
  match fuel with
  | O => acc
  | S f =>
      if Z.ltb z 10 then String (digit z) acc
      else digits_of f (Z.div z 10) (String (digit (Z.modulo z 10)) acc)
  end.

(** [str(z)] *)
Definition string_of_Z (z : Z) : string :=
  let fuel := S (Z.to_nat (Z.log2 (Z.abs z))) in
  if Z.ltb z 0 then String "-" (digits_of fuel (- z) "")
  else digits_of fuel z "".

(** [str(v)] of a category value. *)
Definition py_str (c : cell) : string :=
  match c with
  | CNum z => string_of_Z z
  | CStr s => s
  | CBool true => "True"
  | CBool false => "False"
  | CMissing => "nan"
  end.

(* ------------------------------------------------------------------ *)
(** ** Column selection and assignment *)

(** [X[n]] for a single column: absent or duplicated names fail. *)
Definition get_col (n : string) (t : DataFrame) : res column :=
  match List.filter (fun c => String.eqb (col_name c) n) (df_cols t) with
  | [c] => inr c
  | _ => inl (KeyError n)
  end.

(** [X[n] = vals] for an existing column [n], with the dtype of [vals]. *)
Definition df_setitem (n : string) (d : dtype) (vals : list cell)
    (t : DataFrame) : DataFrame :=
  mkDF (map (fun c => if String.eqb (col_name c) n then mkcol n d vals
                      else c) (df_cols t)).

(** [X.select_dtypes(include=...).columns.values] *)
Definition select_dtypes (t : DataFrame) (include : list dtype) : list string :=
  map col_name (List.filter (fun c => bool_decide (col_dtype c ∈ include))
                       (df_cols t)).

(* ------------------------------------------------------------------ *)
(** ** The transformation plan (lines 65-134) *)

(** The five transformer groups of the [ColumnTransformer], in order, and
    whether the one-hot encoder drops the first category. *)
Record plan := mkplan {
  p_cat_imp : list string;    (** 'cat_imputer' *)
  p_num_imp : list string;    (** 'num_imputer' *)
  p_ohe : list string;        (** "one_hot" *)
  p_drop_first : bool;        (** [OneHotEncoder(drop='first')] *)
  p_std : list string;        (** "standard_scalar" *)
  p_rob : list string         (** "robust_scalar" *)
}.

(** The automatic plan (lines 79-108): numeric columns are scaled, object,
    bool and category columns are one-hot encoded with [drop='first']. *)
Definition auto_plan (t : DataFrame) (robust_scale numerical_impute
    categorical_impute : list string) : plan :=
  {| p_cat_imp := categorical_impute;
     p_num_imp := numerical_impute;
     p_ohe := select_dtypes t [DObject; DBool; DCategory];
     p_drop_first := true;
     p_std := select_dtypes t [DFloat64; DInt64];
     p_rob := robust_scale |}.

(** The manual plan (lines 110-134). *)
Definition manual_plan (OHE standard_scale robust_scale numerical_impute
    categorical_impute : list string) : plan :=
  {| p_cat_imp := categorical_impute;
     p_num_imp := numerical_impute;
     p_ohe := OHE;
     p_drop_first := false;
     p_std := standard_scale;
     p_rob := robust_scale |}.

(** The conflict check of the automatic mode (lines 66-78). *)
Fixpoint manual_lists_empty (elements : list pyval) : M unit :=
  match elements with
  | [] => ret tt
  | element :: rest =>
      if Nat.ltb 0 (py_len element) then raise ConfigConflict
      else manual_lists_empty rest
  end.

Definition auto_conflict_check (OHE standard_scale robust_scale
    numerical_impute categorical_impute : pyval)
    (label_encode : list (string * list string)) : M unit :=
  _ <- manual_lists_empty [OHE; standard_scale; robust_scale;
                           numerical_impute; categorical_impute] ;;
  if Nat.ltb 0 (length label_encode) then raise ConfigConflict else ret tt.

(* ------------------------------------------------------------------ *)
(** ** The fitted column transformer *)

(** [SimpleImputer(strategy='constant', fill_value='missing')] *)
Definition impute_const (v : cell) : cell :=
  match v with CMissing => CStr "missing" | _ => v end.

(** The categories kept by the one-hot encoder. *)
Definition kept_cats (drop_first : bool) (cs : list cell) : list cell :=
  if drop_first then tl cs else cs.

(** One output column of the transformer, with the dtype of the array it
    belongs to. *)
Definition block := (dtype * list cell)%type.

Definition is_number_dtype (d : dtype) : bool :=
  match d with DInt64 | DInt32 | DFloat64 | DFloat32 => true | _ => false end.

Definition is_object_dtype (d : dtype) : bool :=
  match d with DObject | DCategory => true | _ => false end.

(** numpy's promotion of two array dtypes ([np.result_type]); [None] when
    there is none (a datetime with a number).  A float32 array with an
    integer one gives float64. *)
Definition np_promote (a b : dtype) : option dtype :=
  if decide (a = b) then Some a else
  match a, b with
  | DObject, _ | _, DObject | DCategory, _ | _, DCategory => Some DObject
  | DDatetime, _ | _, DDatetime => None
  | DBool, d | d, DBool => Some d
  | DFloat64, _ | _, DFloat64 => Some DFloat64
  | DFloat32, _ | _, DFloat32 => Some DFloat64
  | _, _ => Some DInt64
  end.

(** The dtype of [np.hstack] of arrays of the given dtypes; with no array
    at all the transformer returns [np.zeros((n, 0))]. *)
Definition np_result_dtype (ds : list dtype) : option dtype :=
  match ds with
  | [] => Some DFloat64
  | d :: ds' =>
      fold_left (fun acc d' => match acc with
                               | Some a => np_promote a d'
                               | None => None
                               end) ds' (Some d)
  end.

(** pandas' dtype for several columns read as one array
    ([DataFrame.to_numpy], [find_common_type]): categories are read as
    object, bool mixed with numbers gives object, and so does a pair numpy
    cannot promote; a frame without columns gives float64. *)
Definition pd_promote (a b : dtype) : dtype :=
  if decide (a = b) then a
  else if (bool_decide (a = DBool) && is_number_dtype b)
          || (bool_decide (b = DBool) && is_number_dtype a) then DObject
  else match np_promote a b with Some d => d | None => DObject end.

Definition pd_common_dtype (ds : list dtype) : dtype :=
  match map (fun d => if decide (d = DCategory) then DObject else d) ds with
  | [] => DFloat64
  | d :: ds' => fold_left pd_promote ds' d
  end.

(** An integer rounded to the nearest double (ties to even): what an int64
    becomes in a float64 array. *)
Definition round_f64 (z : Z) : Z :=
  let n := Z.abs z in
  let e := (Z.log2 n - 52)%Z in
  if Z.leb e 0 then z else
  let q := Z.shiftr n e in
  let r := (n - Z.shiftl q e)%Z in
  let half := Z.shiftl 1 (e - 1) in
  let q' := if Z.ltb half r then (q + 1)%Z
            else if Z.ltb r half then q
            else if Z.even q then q else (q + 1)%Z in
  (Z.sgn z * Z.shiftl q' e)%Z.

(** A value stored in an array of dtype [d] ([astype]): numbers in a
    float64 array are rounded to doubles, booleans in a numeric array are
    0 and 1; an object array keeps the values as they are. *)
Definition np_cast (d : dtype) (v : cell) : cell :=
  match d, v with
  | DFloat64, CNum z => CNum (round_f64 z)
  | (DFloat64 | DFloat32 | DInt64 | DInt32), CBool b =>
      CNum (if b then 1 else 0)
  | _, _ => v
  end.

(** A 2-d numpy array, by columns. *)
Record ndarray := mkarr {
  arr_dtype : dtype;
  arr_cols : list (list cell)
}.

(** [_hstack] of the transformer outputs: one array of their common dtype. *)
Definition np_hstack (bs : list block) : res ndarray :=
  match np_result_dtype (map fst bs) with
  | Some d => inr (mkarr d (map (fun b => map (np_cast d) (snd b)) bs))
  | None => inl PromotionError
  end.

(** [pd.DataFrame(data=..., columns=column_names)]: every column has the
    array's dtype; the number of names must match the number of columns. *)
Definition mk_frame (a : ndarray) (names : list string) : res DataFrame :=
  if Nat.eqb (length (arr_cols a)) (length names) then
    inr (mkDF (zip_with (fun n vals => mkcol n (arr_dtype a) vals)
                        names (arr_cols a)))
  else inl ShapeMismatch.

(** The names claimed by one of the five groups, in the order of the
    transformer list. *)
Definition claimed (p : plan) : list string :=
  p_cat_imp p ++ p_num_imp p ++ p_ohe p ++ p_std p ++ p_rob p.

(** [_get_column_indices]: a column selected by name when the transformer
    is fitted. *)
Definition ct_col (n : string) (t : DataFrame) : res column :=
  match List.filter (fun c => String.eqb (col_name c) n) (df_cols t) with
  | [c] => inr c
  | [] => inl NotAColumn
  | _ => inl NonUniqueColumns
  end.

(** [SimpleImputer(strategy='constant', fill_value='missing').fit] on the
    selected columns (skipped when there are none): the array must be of
    object dtype. *)
Definition cat_imputer_fit (cols : list column) : res unit :=
  match cols with
  | [] => inr tt
  | _ => if is_object_dtype (pd_common_dtype (map col_dtype cols)) then inr tt
         else inl ImputerError
  end.

(** [SimpleImputer(strategy='constant', fill_value='missing').transform]:
    an object array has its NaN replaced by 'missing'; a numeric array
    without NaN comes back as it is; anything else fails.  No column, no
    output (the transformer is skipped). *)
Definition cat_imputer_transform (cols : list column) : res (list block) :=
  let d := pd_common_dtype (map col_dtype cols) in
  if is_object_dtype d then
    inr (map (fun c => (DObject, map impute_const (col_vals c))) cols)
  else if is_number_dtype d
          && negb (existsb (fun c => existsb is_missing (col_vals c)) cols) then
    inr (map (fun c => (d, map (np_cast d) (col_vals c))) cols)
  else inl ImputerError.

Section Transformer.

(** The numeric kernels: fitted training column, column to transform,
    transformed column. *)
Variable median_imputer : list cell -> list cell -> list cell.
Variable standard_scaler : list cell -> list cell -> list cell.
Variable robust_scaler : list cell -> list cell -> list cell.

Record fitted := mkfitted {
  fit_plan : plan;
  fit_train : DataFrame;
  fit_cats : list (string * list cell)   (** [categories_] per column *)
}.

(** [transformer.fit(X_train)]: every transformer's columns are selected
    first, in the order of the transformer list; then the transformers are
    fitted in that order (the constant imputer's dtype check, the one-hot
    encoder's categories). *)
Definition fit (p : plan) (t : DataFrame) : res fitted :=
  _ <-? rmap (fun n => ct_col n t) (claimed p) ;;
  cat_cols <-? rmap (fun n => ct_col n t) (p_cat_imp p) ;;
  _ <-? cat_imputer_fit cat_cols ;;
  cats <-? rmap (fun n => c <-? ct_col n t ;;
                          cs <-? np_unique_cells (col_vals c) ;;
                          inr (n, cs)) (p_ohe p) ;;
  inr (mkfitted p t cats).

(** [transformer.named_transformers_.one_hot.get_feature_names(OHE)] *)
Definition get_feature_names (f : fitted) (input_features : list string)
    : list string :=
  concat (zip_with (fun n nc =>
            map (fun k => (n ++ "_" ++ py_str k)%string)
                (kept_cats (p_drop_first (fit_plan f)) (snd nc)))
          input_features (fit_cats f)).

(** [ColumnTransformer.transform] reads the frame by column name: each
    column seen in fit must occur exactly once, other columns are ignored,
    and the result has the columns in their order at fit. *)
Definition select_fitted (f : fitted) (t : DataFrame) : res DataFrame :=
  cols <-? rmap (fun n =>
             match List.filter (fun c => String.eqb (col_name c) n)
                               (df_cols t) with
             | [c] => inr c
             | _ => inl ColumnsMissing
             end) (df_names (fit_train f)) ;;
  inr (mkDF cols).

Definition all_missing (vals : list cell) : bool := forallb is_missing vals.

(** [SimpleImputer(strategy='median')] leaves out of its output the columns
    that held only missing values at fit. *)
Definition median_kept (f : fitted) (cols : list string) : list string :=
  List.filter (fun n => match get_col n (fit_train f) with
                        | inr c => negb (all_missing (col_vals c))
                        | inl _ => true
                        end) cols.

(** A group applying a fitted numeric kernel column by column. *)
Definition numeric_blocks (kernel : list cell -> list cell -> list cell)
    (f : fitted) (t : DataFrame) (cols : list string) : res (list block) :=
  rmap (fun n => c <-? get_col n t ;;
                 ctr <-? get_col n (fit_train f) ;;
                 inr (DFloat64, kernel (col_vals ctr) (col_vals c))) cols.

Definition ohe_blocks (f : fitted) (t : DataFrame) : res (list block) :=
  bs <-? rmap (fun nc =>
          c <-? get_col (fst nc) t ;;
          if forallb (fun v => bool_decide (v ∈ snd nc)) (col_vals c) then
            inr (map (fun k => (DFloat64,
                       map (fun v => if decide (v = k) then CNum 1 else CNum 0)
                           (col_vals c)))
                     (kept_cats (p_drop_first (fit_plan f)) (snd nc)))
          else inl (UnknownCategory (fst nc))) (fit_cats f) ;;
  inr (concat bs).

(** The outputs of the five groups, in the order of the transformer list,
    then the [remainder='passthrough'] columns in their order, read as one
    array of pandas' common dtype. *)
Definition transform_blocks (f : fitted) (x : DataFrame) : res (list block) :=
  let p := fit_plan f in
  cat_cols <-? rmap (fun n => get_col n x) (p_cat_imp p) ;;
  cat_b <-? cat_imputer_transform cat_cols ;;
  num_b <-? numeric_blocks median_imputer f x (median_kept f (p_num_imp p)) ;;
  ohe_b <-? ohe_blocks f x ;;
  std_b <-? numeric_blocks standard_scaler f x (p_std p) ;;
  rob_b <-? numeric_blocks robust_scaler f x (p_rob p) ;;
  let rem_cols := List.filter (fun c => negb (mem (col_name c) (claimed p)))
                              (df_cols x) in
  let d := pd_common_dtype (map col_dtype rem_cols) in
  let rem := map (fun c => (d, map (np_cast d) (col_vals c))) rem_cols in
  inr (cat_b ++ num_b ++ ohe_b ++ std_b ++ rob_b ++ rem).

(** [transformer.transform(X)] *)
Definition transform (f : fitted) (t : DataFrame) : res ndarray :=
  x <-? select_fitted f t ;;
  bs <-? transform_blocks f x ;;
  np_hstack bs.

(* ------------------------------------------------------------------ *)
(** ** The label encoder (lines 155-161) *)

(** [LabelEncoder().fit(values).classes_] is [np.unique(values)]. *)
Definition le_fit (values : list string) : list string :=
  np_unique String.eqb String.leb values.

Fixpoint index_of (s : string) (l : list string) : option nat :=
  match l with
  | [] => None
  | x :: l' => if String.eqb s x then Some 0
               else option_map S (index_of s l')
  end.

(** The code of one value of an object column: its position in
    [classes_] (a dict lookup, so a non-string value is unseen). *)
Definition le_code (classes : list string) (v : cell) : res cell :=
  match v with
  | CStr s => match index_of s classes with
              | Some i => inr (CNum (Z.of_nat i))
              | None => inl UnseenLabel
              end
  | _ => inl UnseenLabel
  end.

(** [le.transform(X[column])]: an empty column gives an empty float array;
    an object column is coded value by value; any other column takes
    numpy's path, where [np.isnan] on the string classes raises
    [TypeError] (with no class at all, the values of a numeric or bool
    column are reported as unseen). *)
Definition le_transform (classes : list string) (c : column) : res block :=
  match col_vals c with
  | [] => inr (DFloat64, [])
  | vals =>
      if is_object_dtype (col_dtype c) then
        codes <-? rmap (le_code classes) vals ;; inr (DInt64, codes)
      else match classes with
           | [] => if is_number_dtype (col_dtype c)
                      || bool_decide (col_dtype c = DBool)
                   then inl UnseenLabel else inl LabelTypeError
           | _ => inl LabelTypeError
           end
  end.

(** [X[column] = le.transform(X[column])] on the frame behind [r]. *)
Definition encode_column (r : ref) (column : string) (classes : list string)
    : M unit :=
  t <- load r ;;
  c <- lift (get_col column t) ;;
  b <- lift (le_transform classes c) ;;
  store_set r (df_setitem column (fst b) (snd b) t).

(** The loop [for column in le_columns: ...]. *)
Fixpoint label_encode_pass (label_encode : list (string * list string))
    (xtr : ref) (xte : option ref) : M unit :=
  match label_encode with
  | [] => ret tt
  | (column, values) :: rest =>
      let classes := le_fit values in
      _ <- encode_column xtr column classes ;;
      _ <- match xte with
           | Some r => encode_column r column classes
           | None => ret tt
           end ;;
      label_encode_pass rest xtr xte
  end.

(* ------------------------------------------------------------------ *)
(** ** [preproc] *)
(** The transformed frame (lines 148-153): transform, then name the
    columns, then allocate the new frame. *)
Definition transformed_frame (f : fitted) (column_names : list string)
    (r : ref) : M ref :=
  t <- load r ;;
  data <- lift (transform f t) ;;
  nt <- lift (mk_frame data column_names) ;;
  alloc nt.

Definition preproc (X_train X_test auto OHE standard_scale robust_scale
    numerical_impute categorical_impute label_encode : pyval)
    : M (ref * option ref) :=
  _ <- check_args (preproc_args X_train X_test auto OHE standard_scale
                     robust_scale numerical_impute categorical_impute
                     label_encode) ;;
  match X_train, auto, label_encode with
  | PDataFrame rtr, PBool b, PDict le =>
      xtr <- df_copy rtr ;;
      xte <- match X_test with
             | PDataFrame r => r' <- df_copy r ;; ret (Some r')
             | _ => ret None
             end ;;
      p <- (if b then
              _ <- auto_conflict_check OHE standard_scale robust_scale
                     numerical_impute categorical_impute le ;;
              t <- load xtr ;;
              ret (auto_plan t (seq_of robust_scale) (seq_of numerical_impute)
                     (seq_of categorical_impute))
            else
              ret (manual_plan (seq_of OHE) (seq_of standard_scale)
                     (seq_of robust_scale) (seq_of numerical_impute)
                     (seq_of categorical_impute))) ;;
      t <- load xtr ;;
      let column_names := df_names t in
      f <- lift (fit p t) ;;
      let ohe_columns :=
        if Nat.ltb 0 (length (p_ohe p)) then get_feature_names f (p_ohe p)
        else [] in
      let column_names :=
        List.filter (fun x => negb (mem x (p_ohe p))) column_names in
      let column_names := ohe_columns ++ column_names in
      xtr' <- transformed_frame f column_names xtr ;;
      xte' <- match xte with
              | Some r => r' <- transformed_frame f column_names r ;;
                          ret (Some r')
              | None => ret None
              end ;;
      _ <- label_encode_pass le xtr' xte' ;;
      ret (xtr', xte')
  | _, _, _ => raise DanglingRef   (* excluded by the type check *)
  end.

(* ================================================================== *)
(** * Proofs *)

(** ** Monad lemmas *)

Lemma bind_inr {A B} (m : M A) (k : A -> M B) s a s' :
  m s = (inr a, s') -> bind m k s = k a s'.
Proof. intros H. unfold bind. by rewrite H. Qed.

Lemma bind_inl {A B} (m : M A) (k : A -> M B) s e s' :
  m s = (inl e, s') -> bind m k s = (inl e, s').
Proof. intros H. unfold bind. by rewrite H. Qed.

Lemma bind_bind_inl {A B C} (m : M A) (k1 : A -> M B) (k2 : B -> M C) s e s' :
  m s = (inl e, s') -> bind (bind m k1) k2 s = (inl e, s').
Proof. intros H. unfold bind. by rewrite H. Qed.

Lemma bind_inv {A B} (m : M A) (k : A -> M B) s b s'' :
  bind m k s = (inr b, s'') ->
  exists a s', m s = (inr a, s') /\ k a s' = (inr b, s'').
Proof.
  unfold bind. destruct (m s) as [[e|a] s'] eqn:E; [congruence|eauto].
Qed.

Lemma load_some r s t : s !! r = Some t -> load r s = (inr t, s).
Proof. intros H. unfold load. by rewrite H. Qed.

Lemma df_copy_some r s t :
  s !! r = Some t -> df_copy r s = (inr (List.length s), s ++ [t]).
Proof. intros H. unfold df_copy. by rewrite (bind_inr _ _ _ _ _ (load_some _ _ _ H)). Qed.

Lemma lookup_snoc (s : store) t : (s ++ [t]) !! List.length s = Some t.
Proof. rewrite lookup_app_r by lia. by rewrite Nat.sub_diag. Qed.

Lemma lookup_snoc_lt (s : store) t i :
  i < List.length s -> (s ++ [t]) !! i = s !! i.
Proof. intros H. by apply lookup_app_l. Qed.

(** ** The argument check *)

Definition args_ok (args : list (string * pyval)) : bool :=
  forallb (fun kv => arg_ok (fst kv) (snd kv)) args.

Lemma check_args_ok args s :
  args_ok args = true -> check_args args s = (inr tt, s).
Proof.
  induction args as [|[k v] args IH]; simpl; [done|].
  intros H. apply andb_prop in H as [H1 H2]. rewrite H1. by apply IH.
Qed.

Lemma check_args_first pre k v post s :
  Forall (fun kv => arg_ok (fst kv) (snd kv) = true) pre ->
  arg_ok k v = false ->
  check_args (pre ++ (k, v) :: post) s =
    (inl (TypeMismatch k (arg_types k) (type_of v)), s).
Proof.
  intros Hpre Hkv. induction Hpre as [|[k' v'] pre H1 _ IH]; simpl.
  - by rewrite Hkv.
  - simpl in H1. by rewrite H1.
Qed.

Lemma manual_lists_empty_spec l s :
  manual_lists_empty l s =
    if existsb (fun e => Nat.ltb 0 (py_len e)) l then (inl ConfigConflict, s)
    else (inr tt, s).
Proof.
  induction l as [|e l IH]; simpl; [done|].
  destruct (Nat.ltb 0 (py_len e)); simpl; [done|]. apply IH.
Qed.

Lemma auto_conflict_check_spec OHE std rob num cat le s :
  auto_conflict_check OHE std rob num cat le s =
    if existsb (fun e => Nat.ltb 0 (py_len e)) [OHE; std; rob; num; cat]
       || Nat.ltb 0 (length le)
    then (inl ConfigConflict, s) else (inr tt, s).
Proof.
  unfold auto_conflict_check. unfold bind. rewrite manual_lists_empty_spec.
  destruct (existsb _ _); simpl; [done|].
  by destruct (Nat.ltb 0 (length le)).
Qed.

(** ** Claim theorems: argument validation *)

(** C5: when some argument's runtime type is not in its permitted list,
    the call fails with [TypeMismatch] carrying the first offending
    argument (in parameter order), its permitted types and its actual
    type, and the store is exactly as before: no copy, no transformation. *)
Theorem type_mismatch_first_violation
    X_train X_test auto OHE standard_scale robust_scale numerical_impute
    categorical_impute label_encode pre k v post s :
  preproc_args X_train X_test auto OHE standard_scale robust_scale
    numerical_impute categorical_impute label_encode = pre ++ (k, v) :: post ->
  Forall (fun kv => arg_ok (fst kv) (snd kv) = true) pre ->
  arg_ok k v = false ->
  preproc X_train X_test auto OHE standard_scale robust_scale
    numerical_impute categorical_impute label_encode s =
    (inl (TypeMismatch k (arg_types k) (type_of v)), s).
Proof.
  intros Hargs Hpre Hkv. unfold preproc. rewrite Hargs.
  by rewrite (bind_inl _ _ _ _ _ (check_args_first pre k v post s Hpre Hkv)).
Qed.

Definition list_arg_names : list string :=
  ["OHE"; "standard_scale"; "robust_scale"; "numerical_impute";
   "categorical_impute"].

(** C10: each of the five column-list arguments passes the type check
    exactly when its runtime type is [list] or [numpy.ndarray]; a tuple of
    column names is rejected with [TypeMismatch]. *)
Theorem list_args_exact_types :
  (forall k v, In k list_arg_names ->
     arg_ok k v = true <-> type_of v = TList \/ type_of v = TNdarray) /\
  (forall rtr xs s,
     preproc (PDataFrame rtr) PNone (PBool false) (PTuple xs) (PList [])
       (PList []) (PList []) (PList []) (PDict []) s =
     (inl (TypeMismatch "OHE" [TList; TNdarray] TTuple), s)).
Proof.
  split.
  - intros k v Hk. unfold arg_ok.
    assert (Hty : arg_types k = [TList; TNdarray]).
    { simpl in Hk. by repeat (destruct Hk as [<-|Hk]; [reflexivity|]). }
    rewrite Hty, bool_decide_eq_true. rewrite !elem_of_cons.
    split; [intros [H|[H|H]]; [by left|by right|by apply not_elem_of_nil in H]|].
    intros [H|H]; [by left|by right; left].
  - intros rtr xs s. reflexivity.
Qed.

(** C3: with [auto=True] and arguments of the permitted types, any
    non-empty manual column list or label-encoding mapping makes the call
    fail with [ConfigConflict]; the store then only holds the two input
    copies in addition to what it held: nothing was fitted or transformed. *)
Theorem auto_rejects_manual_settings
    rtr ttr X_test OHE standard_scale robust_scale numerical_impute
    categorical_impute le s :
  args_ok (preproc_args (PDataFrame rtr) X_test (PBool true) OHE
             standard_scale robust_scale numerical_impute categorical_impute
             (PDict le)) = true ->
  s !! rtr = Some ttr ->
  (forall r, X_test = PDataFrame r -> is_Some (s !! r)) ->
  (0 < py_len OHE \/ 0 < py_len standard_scale \/ 0 < py_len robust_scale \/
   0 < py_len numerical_impute \/ 0 < py_len categorical_impute \/
   0 < length le) ->
  preproc (PDataFrame rtr) X_test (PBool true) OHE standard_scale robust_scale
    numerical_impute categorical_impute (PDict le) s =
  (inl ConfigConflict,
   s ++ ttr :: match X_test with
               | PDataFrame r => match s !! r with Some t => [t] | None => [] end
               | _ => []
               end).
Proof.
  intros Hargs Htr Hte Hne. unfold preproc.
  rewrite (bind_inr _ _ _ _ _ (check_args_ok _ s Hargs)). cbv iota beta.
  rewrite (bind_inr _ _ _ _ _ (df_copy_some _ _ _ Htr)).
  assert (Hconf : forall s0, auto_conflict_check OHE standard_scale
            robust_scale numerical_impute categorical_impute le s0 =
            (inl ConfigConflict, s0)).
  { intros s0. rewrite auto_conflict_check_spec.
    destruct Hne as [H|[H|[H|[H|[H|H]]]]]; simpl;
      apply Nat.ltb_lt in H; rewrite H; simpl;
      repeat rewrite orb_true_r; reflexivity. }
  assert (HX : arg_ok "X_test" X_test = true).
  { unfold args_ok, preproc_args in Hargs. cbn [forallb fst snd] in Hargs.
    by apply andb_prop in Hargs as [_ [? _]%andb_prop]. }
  destruct X_test as [r| | | | | | | |];
    try (vm_compute in HX; discriminate HX).
  - destruct (Hte r eq_refl) as [t Ht].
    assert (Ht' : (s ++ [ttr]) !! r = Some t).
    { rewrite lookup_snoc_lt; [done|]. by apply lookup_lt_Some in Ht. }
    assert (E : (r' <- df_copy r ;; ret (Some r')) (s ++ [ttr]) =
                (inr (Some (List.length (s ++ [ttr]))), (s ++ [ttr]) ++ [t])).
    { by rewrite (bind_inr _ _ _ _ _ (df_copy_some _ _ _ Ht')). }
    rewrite (bind_inr _ _ _ _ _ E).
    rewrite (bind_bind_inl _ _ _ _ _ _ (Hconf _)). rewrite Ht.
    by rewrite <- app_assoc.
  - rewrite (bind_inr _ _ _ _ _ (eq_refl : ret None (s ++ [ttr]) = _)).
    by rewrite (bind_bind_inl _ _ _ _ _ _ (Hconf _)).
Qed.

(** ** Claim theorems: the plan builder *)




Lemma seq_of_empty v : py_len v = 0 -> seq_of v = [].
Proof. destruct v; simpl; try done; intros H; by apply length_zero_iff_nil. Qed.


(** ** Claim theorems: concrete runs *)

Definition grade_frame : DataFrame :=
  mkDF [mkcol "grade" DObject [CStr "A"; CStr "F"]].

(** C1 (evaluation): with [label_encode={"grade": ["F","D","C","B","A"]}]
    the value "A" is encoded as 0 and "F" as 4: [LabelEncoder] numbers
    the sorted classes, not the positions in the caller's list. *)
Theorem label_encode_grade_scenario :
  preproc (PDataFrame 0) PNone (PBool false) (PList []) (PList []) (PList [])
    (PList []) (PList []) (PDict [("grade", ["F"; "D"; "C"; "B"; "A"])])
    [grade_frame] =
  (inr (2, None),
   [grade_frame; grade_frame;
    mkDF [mkcol "grade" DInt64 [CNum 0; CNum 4]]]).
Proof. vm_compute. reflexivity. Qed.

Definition ab_frame : DataFrame :=
  mkDF [mkcol "a" DInt64 [CNum 1; CNum 2];
        mkcol "b" DObject [CStr "x"; CMissing]].

(** C2 (evaluation): imputing column [b] of the frame [a, b] yields a frame
    whose column named [a] holds the imputed values of [b] and whose column
    named [b] holds the values of [a]. *)
Theorem imputed_column_lands_in_first_slot :
  preproc (PDataFrame 0) PNone (PBool false) (PList []) (PList []) (PList [])
    (PList []) (PList ["b"]) (PDict []) [ab_frame] =
  (inr (2, None),
   [ab_frame; ab_frame;
    mkDF [mkcol "a" DObject [CStr "x"; CStr "missing"];
          mkcol "b" DObject [CNum 1; CNum 2]]]).
Proof. vm_compute. reflexivity. Qed.

(** ** Frame reasoning: which store cells a computation may change *)

(** [keeps n m Q]: on a store with at least [n] objects, [m] leaves the
    first [n] objects untouched and its result satisfies [Q]. *)
Definition keeps {A} (n : nat) (m : M A) (Q : A -> Prop) : Prop :=
  forall s, n <= List.length s ->
    n <= List.length (snd (m s)) /\
    (forall i, i < n -> snd (m s) !! i = s !! i) /\
    (forall a, fst (m s) = inr a -> Q a).

Lemma keeps_bind {A B} n (m : M A) (k : A -> M B) Q R :
  keeps n m Q -> (forall a, Q a -> keeps n (k a) R) -> keeps n (bind m k) R.
Proof.
  intros Hm Hk s Hs. specialize (Hm s Hs). unfold bind.
  destruct (m s) as [[e|a] s'] eqn:E; simpl in *; destruct Hm as [H1 [H2 H3]].
  - split; [done|split; [done|discriminate]].
  - destruct (Hk a (H3 a eq_refl) s' H1) as [K1 [K2 K3]].
    split; [done|split; [|done]]. intros i Hi. rewrite K2 by done. by apply H2.
Qed.

Lemma keeps_ret {A} n (a : A) (Q : A -> Prop) : Q a -> keeps n (ret a) Q.
Proof. intros HQ s Hs. simpl. split; [done|split; [done|]]. by intros ? [= <-]. Qed.

Lemma keeps_raise {A} n e (Q : A -> Prop) : keeps n (raise e) Q.
Proof. intros s Hs. simpl. split; [done|split; [done|discriminate]]. Qed.

Lemma keeps_lift {A} n (r : res A) : keeps n (lift r) (fun _ => True).
Proof. intros s Hs. simpl. split; [done|split; done]. Qed.

Lemma keeps_load n r : keeps n (load r) (fun _ => True).
Proof.
  intros s Hs. unfold load. case_match; simpl; repeat split; intros; done.
Qed.

Lemma keeps_alloc n t : keeps n (alloc t) (fun r => n <= r).
Proof.
  intros s Hs. simpl. rewrite length_app. simpl.
  split; [lia|split].
  - intros i Hi. apply lookup_snoc_lt. lia.
  - by intros ? [= <-].
Qed.

Lemma keeps_store_set n r t : n <= r -> keeps n (store_set r t) (fun _ => True).
Proof.
  intros Hr s Hs. unfold store_set. case_decide; simpl.
  - rewrite length_insert. split; [done|split; [|done]].
    intros i Hi. apply list_lookup_insert_ne. lia.
  - split; [done|split; done].
Qed.

Lemma keeps_df_copy n r : keeps n (df_copy r) (fun r' => n <= r').
Proof.
  unfold df_copy. eapply keeps_bind; [apply keeps_load|intros t _].
  apply keeps_alloc.
Qed.

Lemma keeps_check_args n args : keeps n (check_args args) (fun _ => True).
Proof.
  induction args as [|[k v] args IH]; simpl.
  - by apply keeps_ret.
  - destruct (arg_ok k v); [done|apply keeps_raise].
Qed.

Lemma keeps_auto_conflict_check n OHE std rob num cat le :
  keeps n (auto_conflict_check OHE std rob num cat le) (fun _ => True).
Proof.
  intros s Hs. rewrite auto_conflict_check_spec.
  destruct (_ || _); simpl; split; done.
Qed.

Lemma keeps_transformed_frame n f names r :
  keeps n (transformed_frame f names r) (fun r' => n <= r').
Proof.
  unfold transformed_frame.
  eapply keeps_bind; [apply keeps_load|intros t _].
  eapply keeps_bind; [apply keeps_lift|intros data _].
  eapply keeps_bind; [apply keeps_lift|intros nt _].
  apply keeps_alloc.
Qed.

Lemma keeps_encode_column n r column classes :
  n <= r -> keeps n (encode_column r column classes) (fun _ => True).
Proof.
  intros Hr. unfold encode_column.
  eapply keeps_bind; [apply keeps_load|intros t _].
  eapply keeps_bind; [apply keeps_lift|intros c _].
  eapply keeps_bind; [apply keeps_lift|intros codes _].
  by apply keeps_store_set.
Qed.

Lemma keeps_label_encode_pass n le xtr xte :
  n <= xtr -> (forall r, xte = Some r -> n <= r) ->
  keeps n (label_encode_pass le xtr xte) (fun _ => True).
Proof.
  intros Htr Hte. induction le as [|[column values] le IH]; simpl.
  - by apply keeps_ret.
  - eapply keeps_bind; [by apply keeps_encode_column|intros _ _].
    eapply (keeps_bind _ _ _ (fun _ => True)).
    + destruct xte as [r|]; [apply keeps_encode_column; by apply Hte|].
      by apply keeps_ret.
    + by intros _ _.
Qed.

Lemma keeps_preproc n X_train X_test auto OHE standard_scale robust_scale
    numerical_impute categorical_impute label_encode :
  keeps n (preproc X_train X_test auto OHE standard_scale robust_scale
             numerical_impute categorical_impute label_encode)
          (fun _ => True).
Proof.
  unfold preproc.
  eapply keeps_bind; [apply keeps_check_args|intros _ _].
  destruct X_train as [rtr| | | | | | | |]; try apply keeps_raise.
  destruct auto as [| |b| | | | | |]; try apply keeps_raise.
  destruct label_encode as [| | | | | | | |le]; try apply keeps_raise.
  eapply keeps_bind; [apply keeps_df_copy|intros xtr Hxtr].
  eapply (keeps_bind _ _ _ (fun o => forall r, o = Some r -> n <= r)).
  { destruct X_test; try (apply keeps_ret; discriminate).
    eapply keeps_bind; [apply keeps_df_copy|intros r' Hr'].
    apply keeps_ret. by intros ? [= <-]. }
  intros xte Hxte.
  eapply (keeps_bind _ _ _ (fun _ => True)).
  { destruct b.
    - eapply keeps_bind; [apply keeps_auto_conflict_check|intros _ _].
      eapply keeps_bind; [apply keeps_load|intros t _]. by apply keeps_ret.
    - by apply keeps_ret. }
  intros p _.
  eapply keeps_bind; [apply keeps_load|intros t _].
  eapply keeps_bind; [apply keeps_lift|intros f _].
  eapply keeps_bind; [apply keeps_transformed_frame|intros xtr' Hxtr'].
  eapply (keeps_bind _ _ _ (fun o => forall r, o = Some r -> n <= r)).
  { destruct xte as [r|].
    - eapply keeps_bind; [apply keeps_transformed_frame|intros r' Hr'].
      apply keeps_ret. by intros ? [= <-].
    - apply keeps_ret. discriminate. }
  intros xte' Hxte'.
  eapply keeps_bind; [by apply keeps_label_encode_pass|intros _ _].
  by apply keeps_ret.
Qed.

(** ** Claim theorems: the caller's frames *)

(** C8: whatever the arguments, and whether the call returns or raises,
    the objects that existed before the call (in particular the caller's
    train and test frames) are exactly as they were: the store after the
    call extends the store before it. *)
Theorem preproc_leaves_inputs_unchanged
    X_train X_test auto OHE standard_scale robust_scale numerical_impute
    categorical_impute label_encode s :
  take (List.length s)
    (snd (preproc X_train X_test auto OHE standard_scale robust_scale
            numerical_impute categorical_impute label_encode s)) = s.
Proof.
  destruct (keeps_preproc (List.length s) X_train X_test auto OHE
              standard_scale robust_scale numerical_impute categorical_impute
              label_encode s (le_n _)) as [H1 [H2 _]].
  apply list_eq. intros i.
  destruct (decide (i < List.length s)).
  - rewrite lookup_take_lt by done. by apply H2.
  - rewrite lookup_take_ge by lia. symmetry. apply lookup_ge_None. lia.
Qed.

(** ** The all-defaults call *)

Lemma filter_all_true {A} (l : list A) : List.filter (fun _ => true) l = l.
Proof. induction l as [|x l IH]; simpl; [done|by rewrite IH]. Qed.

Lemma mk_frame_ok a names :
  length (arr_cols a) = length names ->
  exists t, mk_frame a names = inr t /\ df_names t = names /\
            map col_vals (df_cols t) = arr_cols a.
Proof.
  intros Hl. unfold mk_frame. rewrite Hl, Nat.eqb_refl.
  eexists. split; [done|]. unfold df_names. cbn [df_cols].
  destruct a as [d data]. cbn [arr_cols arr_dtype] in *.
  revert data Hl. induction names as [|n names IH]; intros [|b data] Hl;
    simpl in *; try done.
  injection Hl as Hl. destruct (IH data Hl) as [-> ->]. done.
Qed.

(** An int64 column above 2^53 next to a float64 column. *)
Definition big_frame : DataFrame :=
  mkDF [mkcol "a" DInt64 [CNum (2 ^ 53 + 1)]; mkcol "b" DFloat64 [CNum 1]].

(** C9 (code bug): with every option at its default, the columns are not
    passed through unchanged: the remainder is read as one float64 array,
    so the int64 value 2^53 + 1 comes back as the float 2^53 (and the
    column as float64). *)
Theorem defaults_round_large_int :
  preproc (PDataFrame 0) PNone (PBool false) (PList []) (PList [])
    (PList []) (PList []) (PList []) (PDict []) [big_frame] =
  (inr (2, None),
   [big_frame; big_frame;
    mkDF [mkcol "a" DFloat64 [CNum (2 ^ 53)]; mkcol "b" DFloat64 [CNum 1]]]).
Proof. vm_compute. reflexivity. Qed.

(** ** The label-encoding pass *)


Lemma insert_uniq_In x y l :
  In x (insert_uniq String.eqb String.leb y l) <-> x = y \/ In x l.
Proof.
  induction l as [|z l IH]; simpl.
  - naive_solver.
  - destruct (String.eqb_spec y z) as [<-|Hne].
    + simpl. naive_solver.
    + destruct (String.leb y z); simpl; [naive_solver|].
      rewrite IH. naive_solver.
Qed.

Lemma le_fit_In x values : In x (le_fit values) <-> In x values.
Proof.
  unfold le_fit, np_unique. induction values as [|y values IH]; simpl; [done|].
  rewrite insert_uniq_In, IH. naive_solver.
Qed.
























(** ** Inversion of successful runs *)

Lemma ret_inv {A} (a b : A) s s' : ret a s = (inr b, s') -> a = b /\ s' = s.
Proof. by intros [= -> ->]. Qed.

Lemma load_inv r s t s' : load r s = (inr t, s') -> s !! r = Some t /\ s' = s.
Proof. unfold load. case_match; by intros [= -> ->]. Qed.

Lemma alloc_inv t s r s' :
  alloc t s = (inr r, s') -> r = List.length s /\ s' = s ++ [t].
Proof. by intros [= <- <-]. Qed.

Lemma lift_inv {A} (x : res A) s a s' : lift x s = (inr a, s') -> x = inr a /\ s' = s.
Proof. by intros [= -> ->]. Qed.

Lemma df_copy_inv r s r' s' :
  df_copy r s = (inr r', s') ->
  exists t, s !! r = Some t /\ r' = List.length s /\ s' = s ++ [t].
Proof.
  unfold df_copy. intros (t & s1 & H1 & H2)%bind_inv.
  apply load_inv in H1 as [Ht ->]. apply alloc_inv in H2 as [-> ->]. eauto.
Qed.

Lemma transformed_frame_inv f names r s r' s' :
  transformed_frame f names r s = (inr r', s') ->
  exists t data nt, s !! r = Some t /\ transform f t = inr data /\
    mk_frame data names = inr nt /\ r' = List.length s /\ s' = s ++ [nt].
Proof.
  unfold transformed_frame. intros (t & s1 & H1 & H2)%bind_inv.
  apply load_inv in H1 as [Ht ->].
  apply bind_inv in H2 as (data & s2 & H2 & H3). apply lift_inv in H2 as [Hd ->].
  apply bind_inv in H3 as (nt & s3 & H3 & H4). apply lift_inv in H3 as [Hn ->].
  apply alloc_inv in H4 as [-> ->]. eauto 10.
Qed.

Lemma mk_frame_names data names nt :
  mk_frame data names = inr nt -> df_names nt = names.
Proof.
  intros H. destruct (Nat.eqb_spec (length (arr_cols data)) (length names))
    as [Hl|Hl].
  - destruct (mk_frame_ok data names Hl) as (nt' & H' & Hn & _). congruence.
  - unfold mk_frame in H. apply Nat.eqb_neq in Hl. by rewrite Hl in H.
Qed.

(** The pure effect of [encode_column] on one frame. *)
Definition encode_frame (column : string) (classes : list string)
    (t : DataFrame) : res DataFrame :=
  c <-? get_col column t ;;
  b <-? le_transform classes c ;;
  inr (df_setitem column (fst b) (snd b) t).

Lemma encode_column_inv r column classes s s' :
  encode_column r column classes s = (inr tt, s') ->
  exists t t', s !! r = Some t /\ encode_frame column classes t = inr t' /\
               s' = <[r := t']> s.
Proof.
  unfold encode_column. intros (t & s1 & H1 & H2)%bind_inv.
  apply load_inv in H1 as [Ht ->].
  apply bind_inv in H2 as (c & s2 & H2 & H3). apply lift_inv in H2 as [Hc ->].
  apply bind_inv in H3 as (codes & s3 & H3 & H4).
  apply lift_inv in H3 as [Hcodes ->].
  unfold store_set in H4. case_decide; [|discriminate].
  injection H4 as <-. exists t, (df_setitem column (fst codes) (snd codes) t).
  split; [done|split; [|done]]. unfold encode_frame. rewrite Hc.
  cbn -[le_transform]. by rewrite Hcodes.
Qed.

Lemma df_names_setitem n d codes t :
  df_names (df_setitem n d codes t) = df_names t.
Proof.
  unfold df_names, df_setitem. cbn [df_cols]. rewrite map_map.
  apply map_ext. intros c. by destruct (String.eqb_spec (col_name c) n).
Qed.

Lemma encode_frame_names column classes t t' :
  encode_frame column classes t = inr t' -> df_names t' = df_names t.
Proof.
  unfold encode_frame, rbind.
  destruct (get_col column t); [discriminate|].
  destruct (le_transform _ _); [discriminate|].
  intros [= <-]. apply df_names_setitem.
Qed.

Lemma encode_column_names r column classes s s' :
  encode_column r column classes s = (inr tt, s') ->
  forall i, option_map df_names (s' !! i) = option_map df_names (s !! i).
Proof.
  intros (t & t' & Ht & He & ->)%encode_column_inv i.
  destruct (decide (i = r)) as [->|Hne].
  - rewrite list_lookup_insert_eq by (by apply lookup_lt_Some in Ht).
    rewrite Ht. simpl. f_equal. by apply encode_frame_names in He.
  - by rewrite list_lookup_insert_ne by congruence.
Qed.

Lemma label_encode_pass_names le xtr xte s s' :
  label_encode_pass le xtr xte s = (inr tt, s') ->
  forall i, option_map df_names (s' !! i) = option_map df_names (s !! i).
Proof.
  revert s. induction le as [|[column values] rest IH]; intros s H i; simpl in H.
  - by injection H as <-.
  - apply bind_inv in H as ([] & s1 & H1 & H2).
    apply bind_inv in H2 as ([] & s2 & H2 & H3).
    rewrite (IH s2 H3 i).
    assert (E2 : option_map df_names (s2 !! i) = option_map df_names (s1 !! i)).
    { destruct xte as [r|].
      - by apply (encode_column_names r column (le_fit values) s1 s2).
      - by injection H2 as <-. }
    rewrite E2. by apply (encode_column_names xtr column (le_fit values) s s1).
Qed.

Lemma label_encode_pass_sync le xtr xte s s' :
  xtr <> xte -> s !! xtr = s !! xte ->
  label_encode_pass le xtr (Some xte) s = (inr tt, s') ->
  s' !! xtr = s' !! xte.
Proof.
  intros Hne. revert s.
  induction le as [|[column values] rest IH]; intros s Hs H; simpl in H.
  - by injection H as <-.
  - apply bind_inv in H as ([] & s1 & H1 & H2).
    apply bind_inv in H2 as ([] & s2 & H2 & H3).
    apply (IH s2); [|done].
    apply encode_column_inv in H1 as (t & t' & Ht & He & ->).
    apply encode_column_inv in H2 as (u & u' & Hu & He' & ->).
    rewrite list_lookup_insert_ne in Hu by done.
    assert (u = t) as -> by congruence.
    assert (u' = t') as -> by congruence.
    rewrite list_lookup_insert_eq.
    + rewrite list_lookup_insert_ne by done.
      rewrite list_lookup_insert_eq; [done|]. by apply lookup_lt_Some in Ht.
    + rewrite length_insert. rewrite Hs in Ht. by apply lookup_lt_Some in Ht.
Qed.

Lemma check_args_inv args s u s' : check_args args s = (inr u, s') -> s' = s.
Proof.
  revert s. induction args as [|[k v] args IH]; intros s; simpl.
  - by intros [= _ ->].
  - destruct (arg_ok k v); [apply IH|discriminate].
Qed.

Lemma auto_conflict_check_inv OHE std rob num cat le s u s' :
  auto_conflict_check OHE std rob num cat le s = (inr u, s') -> s' = s.
Proof. rewrite auto_conflict_check_spec. case_match; by intros [= _ ->]. Qed.

(** What a successful run has done: the train copy and (if any) the test
    copy were each pushed through the same fitted transformer under the same
    column names, and the label pass ran last. *)
Lemma preproc_success_inv X_train X_test auto OHE std rob num cat label_encode
    s xtr' xte' s' :
  preproc X_train X_test auto OHE std rob num cat label_encode s =
    (inr (xtr', xte'), s') ->
  exists rtr le t0 f names ntr s5,
    X_train = PDataFrame rtr /\ label_encode = PDict le /\
    s !! rtr = Some t0 /\
    (exists data, transform f t0 = inr data /\ mk_frame data names = inr ntr) /\
    s5 !! xtr' = Some ntr /\
    label_encode_pass le xtr' xte' s5 = (inr tt, s') /\
    match xte' with
    | None => forall rte, X_test <> PDataFrame rte
    | Some r => r <> xtr' /\
        exists rte tte nte data, X_test = PDataFrame rte /\
          (s ++ [t0]) !! rte = Some tte /\ transform f tte = inr data /\
          mk_frame data names = inr nte /\ s5 !! r = Some nte
    end.
Proof.
  unfold preproc. intros H.
  apply bind_inv in H as (u & s0 & Hc & H). apply check_args_inv in Hc as ->.
  destruct X_train as [rtr| | | | | | | |]; try (cbv [raise] in H; discriminate).
  destruct auto as [| |b| | | | | |]; try (cbv [raise] in H; discriminate).
  destruct label_encode as [| | | | | | | |le]; try (cbv [raise] in H; discriminate).
  apply bind_inv in H as (xtr & s1 & H1 & H).
  apply df_copy_inv in H1 as (t0 & Ht0 & -> & ->).
  apply bind_inv in H as (xte & s2 & H2 & H).
  assert (Hxte : match xte with
                 | None => (forall rte, X_test <> PDataFrame rte) /\
                           s2 = s ++ [t0]
                 | Some r => exists rte tte, X_test = PDataFrame rte /\
                     (s ++ [t0]) !! rte = Some tte /\
                     r = List.length (s ++ [t0]) /\ s2 = (s ++ [t0]) ++ [tte]
                 end).
  { destruct X_test as [rte| | | | | | | |];
      try (apply ret_inv in H2 as [<- ->]; split; [congruence|done]).
    apply bind_inv in H2 as (r' & s2' & H2 & H2').
    apply df_copy_inv in H2 as (tte & Htte & -> & ->).
    apply ret_inv in H2' as [<- ->]. eauto 10. }
  clear H2.
  assert (Hs2 : s2 !! List.length s = Some t0).
  { destruct xte as [r|].
    - destruct Hxte as (rte & tte & _ & _ & _ & ->).
      rewrite lookup_snoc_lt by (rewrite length_app; simpl; lia).
      apply lookup_snoc.
    - destruct Hxte as [_ ->]. apply lookup_snoc. }
  apply bind_inv in H as (p & s3 & H3 & H).
  assert (s3 = s2) as ->.
  { destruct b.
    - apply bind_inv in H3 as (u' & s3' & H3 & H3').
      apply auto_conflict_check_inv in H3 as ->.
      apply bind_inv in H3' as (t' & s3'' & H3' & H3'').
      apply load_inv in H3' as [_ ->]. by apply ret_inv in H3'' as [_ ->].
    - by apply ret_inv in H3 as [_ ->]. }
  apply bind_inv in H as (t & s4 & H4 & H).
  apply load_inv in H4 as [Ht ->]. rewrite Hs2 in Ht. injection Ht as <-.
  apply bind_inv in H as (f & s5 & H5 & H). apply lift_inv in H5 as [Hf ->].
  set (names := (if Nat.ltb 0 (length (p_ohe p))
                 then get_feature_names f (p_ohe p) else []) ++
                List.filter (fun x => negb (mem x (p_ohe p))) (df_names t0)).
  fold names in H.
  apply bind_inv in H as (xtr'' & s6 & H6 & H).
  apply transformed_frame_inv in H6 as (t & data & ntr & Ht & Hd & Hn & -> & ->).
  rewrite Hs2 in Ht. injection Ht as <-.
  apply bind_inv in H as (xte'' & s7 & H7 & H).
  apply bind_inv in H as ([] & s8 & H8 & H).
  apply ret_inv in H as [Heq ->]. injection Heq as <- <-.
  destruct xte as [r|].
  - apply bind_inv in H7 as (r' & s7' & H7 & H7').
    apply ret_inv in H7' as [<- ->].
    apply transformed_frame_inv in H7 as (tte' & data' & nte & Ht' & Hd' & Hn' & -> & ->).
    destruct Hxte as (rte & tte & HX & Htte & -> & ->).
    rewrite lookup_snoc_lt in Ht' by (rewrite !length_app; simpl; lia).
    rewrite lookup_snoc in Ht'. injection Ht' as <-.
    exists rtr, le, t0, f, names, ntr, ((((s ++ [t0]) ++ [tte]) ++ [ntr]) ++ [nte]).
    split; [done|]. split; [done|]. split; [done|]. split; [eauto|].
    split.
    { rewrite lookup_snoc_lt by (rewrite !length_app; simpl; lia).
      apply lookup_snoc. }
    split; [done|].
    split; [rewrite !length_app; simpl; lia|].
    exists rte, tte, nte, data'. repeat split; try done. apply lookup_snoc.
  - apply ret_inv in H7 as [<- ->]. destruct Hxte as [HX ->].
    exists rtr, le, t0, f, names, ntr, ((s ++ [t0]) ++ [ntr]).
    repeat split; eauto. apply lookup_snoc.
Qed.

(** The plan [preproc] builds for a training frame (lines 65-134). *)
Definition plan_of (b : bool) (t : DataFrame) (OHE std rob num cat : pyval)
    : plan :=
  if b then auto_plan t (seq_of rob) (seq_of num) (seq_of cat)
  else manual_plan (seq_of OHE) (seq_of std) (seq_of rob) (seq_of num)
         (seq_of cat).

(** The column names of lines 135-147. *)
Definition output_names (f : fitted) (t : DataFrame) : list string :=
  (if Nat.ltb 0 (length (p_ohe (fit_plan f)))
   then get_feature_names f (p_ohe (fit_plan f)) else []) ++
  List.filter (fun x => negb (mem x (p_ohe (fit_plan f)))) (df_names t).

Lemma fit_plan_eq p t f : fit p t = inr f -> fit_plan f = p /\ fit_train f = t.
Proof.
  unfold fit, rbind. repeat (case_match; try discriminate). by intros [= <-].
Qed.

Lemma preproc_success_plan X_train X_test auto OHE std rob num cat
    label_encode s xtr' xte' s' :
  preproc X_train X_test auto OHE std rob num cat label_encode s =
    (inr (xtr', xte'), s') ->
  exists rtr b le t0 f s5,
    X_train = PDataFrame rtr /\ auto = PBool b /\ label_encode = PDict le /\
    s !! rtr = Some t0 /\
    fit (plan_of b t0 OHE std rob num cat) t0 = inr f /\
    (exists data ntr,
       transform f t0 = inr data /\
       mk_frame data (output_names f t0) = inr ntr /\ s5 !! xtr' = Some ntr) /\
    (forall rte tte, X_test = PDataFrame rte -> s !! rte = Some tte ->
       exists data nte r,
         transform f tte = inr data /\
         mk_frame data (output_names f t0) = inr nte /\
         xte' = Some r /\ s5 !! r = Some nte) /\
    (X_test = PNone -> xte' = None) /\
    label_encode_pass le xtr' xte' s5 = (inr tt, s') /\
    (b = true -> seq_of rob = [] /\ seq_of num = [] /\ seq_of cat = []).
Proof.
  unfold preproc. intros H.
  apply bind_inv in H as (u & s0 & Hc & H). apply check_args_inv in Hc as ->.
  destruct X_train as [rtr| | | | | | | |]; try (cbv [raise] in H; discriminate).
  destruct auto as [| |b| | | | | |]; try (cbv [raise] in H; discriminate).
  destruct label_encode as [| | | | | | | |le]; try (cbv [raise] in H; discriminate).
  apply bind_inv in H as (xtr & s1 & H1 & H).
  apply df_copy_inv in H1 as (t0 & Ht0 & -> & ->).
  apply bind_inv in H as (xte & s2 & H2 & H).
  assert (Hxte : match xte with
                 | None => (forall rte, X_test <> PDataFrame rte) /\
                           s2 = s ++ [t0]
                 | Some r => exists rte tte, X_test = PDataFrame rte /\
                     (s ++ [t0]) !! rte = Some tte /\
                     r = List.length (s ++ [t0]) /\ s2 = (s ++ [t0]) ++ [tte]
                 end).
  { destruct X_test as [rte| | | | | | | |];
      try (apply ret_inv in H2 as [<- ->]; split; [congruence|done]).
    apply bind_inv in H2 as (r' & s2' & H2 & H2').
    apply df_copy_inv in H2 as (tte & Htte & -> & ->).
    apply ret_inv in H2' as [<- ->]. eauto 10. }
  assert (HxN : X_test = PNone -> xte = None).
  { intros ->. by apply ret_inv in H2 as [<- _]. }
  clear H2.
  assert (Hs2 : s2 !! List.length s = Some t0).
  { destruct xte as [r|].
    - destruct Hxte as (rte & tte & _ & _ & _ & ->).
      rewrite lookup_snoc_lt by (rewrite length_app; simpl; lia).
      apply lookup_snoc.
    - destruct Hxte as [_ ->]. apply lookup_snoc. }
  apply bind_inv in H as (p & s3 & H3 & H).
  assert (Hauto : b = true ->
            seq_of rob = [] /\ seq_of num = [] /\ seq_of cat = []).
  { intros ->. apply bind_inv in H3 as (u' & s3' & H3 & _).
    rewrite auto_conflict_check_spec in H3.
    destruct (existsb _ _ || _) eqn:E; [discriminate|].
    apply orb_false_iff in E as [E1 _]. simpl in E1.
    repeat rewrite orb_false_iff in E1.
    destruct E1 as [_ [_ [Hr [Hn [Hc _]]]]].
    apply Nat.ltb_ge in Hr, Hn, Hc.
    split; [|split]; apply seq_of_empty; lia. }
  assert (p = plan_of b t0 OHE std rob num cat /\ s3 = s2) as [-> ->].
  { destruct b.
    - apply bind_inv in H3 as (u' & s3' & H3 & H3').
      apply auto_conflict_check_inv in H3 as ->.
      apply bind_inv in H3' as (t' & s3'' & H3' & H3'').
      apply load_inv in H3' as [Ht' ->]. rewrite Hs2 in Ht'. injection Ht' as <-.
      by apply ret_inv in H3'' as [<- ->].
    - by apply ret_inv in H3 as [<- ->]. }
  apply bind_inv in H as (t & s4 & H4 & H).
  apply load_inv in H4 as [Ht ->]. rewrite Hs2 in Ht. injection Ht as <-.
  apply bind_inv in H as (f & s5 & H5 & H). apply lift_inv in H5 as [Hf ->].
  destruct (fit_plan_eq _ _ _ Hf) as [Hp _].
  apply bind_inv in H as (xtr'' & s6 & H6 & H).
  apply transformed_frame_inv in H6 as (t & data & ntr & Ht & Hd & Hn & -> & ->).
  rewrite Hs2 in Ht. injection Ht as <-.
  apply bind_inv in H as (xte'' & s7 & H7 & H).
  apply bind_inv in H as ([] & s8 & H8 & H).
  apply ret_inv in H as [Heq ->]. injection Heq as <- <-.
  assert (Hnames : output_names f t0 =
            (if Nat.ltb 0 (length (p_ohe (plan_of b t0 OHE std rob num cat)))
             then get_feature_names f (p_ohe (plan_of b t0 OHE std rob num cat))
             else []) ++
            List.filter (fun x => negb (mem x (p_ohe (plan_of b t0 OHE std rob num cat))))
              (df_names t0)).
  { unfold output_names. by rewrite Hp. }
  rewrite <- Hnames in Hn, H7.
  destruct xte as [r|].
  - apply bind_inv in H7 as (r' & s7' & H7 & H7').
    apply ret_inv in H7' as [<- ->].
    apply transformed_frame_inv in H7 as (tte' & data' & nte & Ht' & Hd' & Hn' & -> & ->).
    destruct Hxte as (rte & tte & HX & Htte & -> & ->).
    rewrite lookup_snoc_lt in Ht' by (rewrite !length_app; simpl; lia).
    rewrite lookup_snoc in Ht'. injection Ht' as <-.
    exists rtr, b, le, t0, f, ((((s ++ [t0]) ++ [tte]) ++ [ntr]) ++ [nte]).
    split; [done|]. split; [done|]. split; [done|]. split; [done|].
    split; [done|]. split.
    { exists data, ntr. split; [done|]. split; [done|].
      rewrite lookup_snoc_lt by (rewrite !length_app; simpl; lia).
      apply lookup_snoc. }
    split; [|split; [by intros ->|split; [done|exact Hauto]]].
    intros rte' tte'' Hr Htte''. rewrite HX in Hr. injection Hr as <-.
    rewrite lookup_snoc_lt in Htte by (by apply lookup_lt_Some in Htte'').
    rewrite Htte'' in Htte. injection Htte as <-.
    exists data', nte, (List.length (((s ++ [t0]) ++ [tte'']) ++ [ntr])).
    split; [done|]. split; [done|]. split; [done|]. apply lookup_snoc.
  - apply ret_inv in H7 as [<- ->]. destruct Hxte as [HX ->].
    exists rtr, b, le, t0, f, ((s ++ [t0]) ++ [ntr]).
    split; [done|]. split; [done|]. split; [done|]. split; [done|].
    split; [done|]. split.
    { exists data, ntr. split; [done|]. split; [done|]. apply lookup_snoc. }
    split; [|split; [done|split; [done|exact Hauto]]].
    intros rte tte Hrte. by destruct (HX rte).
Qed.


Lemma ohe_cats_spec t ns cats :
  rmap (fun n => c <-? ct_col n t ;;
                 cs <-? np_unique_cells (col_vals c) ;;
                 inr (n, cs)) ns = inr cats ->
  map fst cats = ns /\
  forall n cs, In (n, cs) cats ->
    exists c, ct_col n t = inr c /\ np_unique_cells (col_vals c) = inr cs.
Proof.
  revert cats. induction ns as [|n ns IH]; intros cats H; simpl in H.
  - injection H as <-. split; [done|]. intros ? ? [].
  - unfold rbind at 1 2 in H.
    destruct (ct_col n t) as [|c] eqn:Ec; [discriminate|].
    destruct (np_unique_cells (col_vals c)) as [|cs] eqn:Eu; [discriminate|].
    unfold rbind in H.
    destruct (rmap _ ns) as [|cats'] eqn:E; [discriminate|]. injection H as <-.
    destruct (IH cats' eq_refl) as [H1 H2]. split; [simpl; by rewrite H1|].
    intros n' cs' [[= <- <-]|Hin]; eauto.
Qed.

Lemma fit_cats_spec p t f :
  fit p t = inr f ->
  fit_plan f = p /\ fit_train f = t /\ map fst (fit_cats f) = p_ohe p /\
  forall n cs, In (n, cs) (fit_cats f) ->
    exists c, ct_col n t = inr c /\ np_unique_cells (col_vals c) = inr cs.
Proof.
  unfold fit, rbind.
  destruct (rmap _ (claimed p)); [discriminate|].
  destruct (rmap _ (p_cat_imp p)); [discriminate|].
  destruct (cat_imputer_fit _); [discriminate|].
  destruct (rmap _ (p_ohe p)) as [|cats] eqn:E; [discriminate|].
  intros [= <-]. cbn [fit_plan fit_train fit_cats].
  apply ohe_cats_spec in E. tauto.
Qed.



(** C6: in a successful call with a test frame, the transformer is fitted
    once, on the training copy; the training and the test frame are both
    transformed with these fitted parameters and named with the same column
    names, and the two returned frames carry these names.  When the
    training frame is passed again as [X_test], the two returned frames are
    identical. *)
Theorem test_transformed_like_train :
  (forall X_train rte tte auto OHE std rob num cat label_encode s xtr' xte' s',
     s !! rte = Some tte ->
     preproc X_train (PDataFrame rte) auto OHE std rob num cat label_encode s =
       (inr (xtr', xte'), s') ->
     exists rtr b t0 f ntr nte r ttr tte',
       X_train = PDataFrame rtr /\ auto = PBool b /\ s !! rtr = Some t0 /\
       fit (plan_of b t0 OHE std rob num cat) t0 = inr f /\
       (exists a, transform f t0 = inr a /\ mk_frame a (output_names f t0) = inr ntr) /\
       (exists a, transform f tte = inr a /\ mk_frame a (output_names f t0) = inr nte) /\
       xte' = Some r /\ s' !! xtr' = Some ttr /\ s' !! r = Some tte' /\
       df_names ttr = output_names f t0 /\ df_names tte' = output_names f t0) /\
  (forall rtr auto OHE std rob num cat label_encode s xtr' xte' s',
     preproc (PDataFrame rtr) (PDataFrame rtr) auto OHE std rob num cat
       label_encode s = (inr (xtr', xte'), s') ->
     exists r t, xte' = Some r /\ s' !! xtr' = Some t /\ s' !! r = Some t).
Proof.
  split.
  - intros X_train rte tte auto OHE std rob num cat label_encode s xtr' xte' s'
      Hte H.
    apply preproc_success_plan in H
      as (rtr & b & le & t0 & f & s5 & HX & Ha & Hle & Ht0 & Hf &
          (a & ntr & Ha1 & Hm1 & Hs5) & Htest & _ & Hpass & _).
    destruct (Htest rte tte eq_refl Hte) as (a' & nte & r & Ha2 & Hm2 & -> & Hr).
    pose proof (label_encode_pass_names _ _ _ _ _ Hpass xtr') as E1.
    pose proof (label_encode_pass_names _ _ _ _ _ Hpass r) as E2.
    rewrite Hs5 in E1. rewrite Hr in E2.
    destruct (s' !! xtr') as [ttr|] eqn:Ettr; [|discriminate].
    destruct (s' !! r) as [tte'|] eqn:Ette; [|discriminate].
    injection E1 as E1. injection E2 as E2.
    exists rtr, b, t0, f, ntr, nte, r, ttr, tte'.
    do 4 (split; [done|]). split; [eauto|]. split; [eauto|].
    do 3 (split; [done|]).
    apply mk_frame_names in Hm1, Hm2. split; congruence.
  - intros rtr auto OHE std rob num cat label_encode s xtr' xte' s' H.
    apply preproc_success_inv in H
      as (rtr' & le & t0 & f & names & ntr & s5 & [= <-] & _ & Ht0 & (d & Hd & Hn) &
          Hxtr & Hle & Hxte).
    destruct xte' as [r|]; [|by destruct (Hxte rtr)].
    destruct Hxte as (Hne & rte & tte & nte & d' & [= <-] & Htte & Hd' & Hn' & Hr).
    rewrite lookup_snoc_lt in Htte by (by apply lookup_lt_Some in Ht0).
    rewrite Ht0 in Htte. injection Htte as <-.
    assert (nte = ntr) as -> by congruence.
    exists r. rewrite <- (label_encode_pass_sync le xtr' r s5 s');
      [|congruence|congruence|done].
    destruct (s' !! xtr') as [t|] eqn:E.
    + eauto.
    + exfalso. pose proof (label_encode_pass_names _ _ _ _ _ Hle xtr') as E1.
      rewrite E, Hxtr in E1. discriminate.
Qed.

End Transformer.

(** ** Instances of the hypothesised theorems on concrete inputs

    The numeric kernels are instantiated by the identity; none of these runs
    reaches them. *)

(** C3 on a concrete call: [auto=True] together with [OHE=["grade"]]. *)
Lemma auto_rejects_manual_settings_witness :
  preproc (fun _ c => c) (fun _ c => c) (fun _ c => c)
    (PDataFrame 0) PNone (PBool true) (PList ["grade"]) (PList []) (PList [])
    (PList []) (PList []) (PDict []) [grade_frame] =
  (inl ConfigConflict, [grade_frame; grade_frame]).
Proof.
  apply (auto_rejects_manual_settings (fun _ c => c) (fun _ c => c)
           (fun _ c => c) 0 grade_frame PNone (PList ["grade"]) (PList [])
           (PList []) (PList []) (PList []) [] [grade_frame]).
  - vm_compute. reflexivity.
  - reflexivity.
  - intros r Hr. discriminate.
  - left. simpl. lia.
Defined.


(** C6 on a concrete call: the test frame lists [b] before [a] and the
    two returned frames are named [b_x], [b_nan], [a]. *)
Lemma test_transformed_like_train_witness :
  exists f ttr tte',
    fit (plan_of false ab_frame (PList ["b"]) (PList []) (PList []) (PList [])
           (PList [])) ab_frame = inr f /\
    df_names ttr = ["b_x"; "b_nan"; "a"] /\ df_names tte' = df_names ttr.
Proof.
  destruct (proj1 (test_transformed_like_train (fun _ c => c) (fun _ c => c)
              (fun _ c => c)) (PDataFrame 0) 1
              (mkDF [mkcol "b" DObject [CStr "x"]; mkcol "a" DInt64 [CNum 7]])
              (PBool false) (PList ["b"]) (PList []) (PList []) (PList [])
              (PList []) (PDict [])
              [ab_frame; mkDF [mkcol "b" DObject [CStr "x"];
                               mkcol "a" DInt64 [CNum 7]]] 4 (Some 5)
              [ab_frame; mkDF [mkcol "b" DObject [CStr "x"];
                               mkcol "a" DInt64 [CNum 7]];
               ab_frame;
               mkDF [mkcol "b" DObject [CStr "x"]; mkcol "a" DInt64 [CNum 7]];
               mkDF [mkcol "b_x" DFloat64 [CNum 1; CNum 0];
                     mkcol "b_nan" DFloat64 [CNum 0; CNum 1];
                     mkcol "a" DFloat64 [CNum 1; CNum 2]];
               mkDF [mkcol "b_x" DFloat64 [CNum 1];
                     mkcol "b_nan" DFloat64 [CNum 0];
                     mkcol "a" DFloat64 [CNum 7]]]
              ltac:(reflexivity) ltac:(vm_compute; reflexivity))
    as (rtr & b & t0 & f & ntr & nte & r & ttr & tte' & HX & Ha & Ht0 & Hf &
        _ & _ & _ & _ & _ & H1 & H2).
  injection HX as <-. injection Ha as <-. injection Ht0 as <-.
  exists f, ttr, tte'. split; [exact Hf|]. split; [|congruence].
  rewrite H1. vm_compute in Hf. injection Hf as <-. reflexivity.
Defined.

(** C5 on a concrete call: [X_train], [X_test] and [auto] are well typed and
    [OHE] is a tuple, so the error names [OHE]. *)
Lemma type_mismatch_first_violation_witness :
  preproc (fun _ c => c) (fun _ c => c) (fun _ c => c)
    (PDataFrame 0) PNone (PBool false) (PTuple ["grade"]) (PList [])
    (PList []) (PList []) (PList []) (PDict []) [grade_frame] =
  (inl (TypeMismatch "OHE" [TList; TNdarray] TTuple), [grade_frame]).
Proof.
  apply (type_mismatch_first_violation (fun _ c => c) (fun _ c => c)
           (fun _ c => c) (PDataFrame 0) PNone (PBool false) (PTuple ["grade"])
           (PList []) (PList []) (PList []) (PList []) (PDict [])
           [("X_train", PDataFrame 0); ("X_test", PNone); ("auto", PBool false)]
           "OHE" (PTuple ["grade"])
           [("standard_scale", PList []); ("robust_scale", PList []);
            ("numerical_impute", PList []); ("categorical_impute", PList []);
            ("label_encode", PDict [])]
           [grade_frame]).
  - reflexivity.
  - repeat constructor.
  - reflexivity.
Defined.



(* ================================================================== *)
(** * Further properties of the code *)

(** ** The label encoder: order of the classes *)

Lemma string_compare_refl a : String.compare a a = Eq.
Proof.
  induction a as [|c a IH]; simpl; [done|].
  unfold Ascii.compare. by rewrite N.compare_refl.
Qed.

Lemma string_ltb_iff a b :
  String.ltb a b = true <-> String.leb a b = true /\ a <> b.
Proof.
  unfold String.ltb, String.leb.
  destruct (String.compare a b) eqn:E.
  - apply String.compare_eq_iff in E as ->. naive_solver.
  - split; [|done]. intros _. split; [done|]. intros ->.
    pose proof (string_compare_refl b).
    congruence.
  - naive_solver.
Qed.

Lemma string_leb_trans a b c :
  String.leb a b = true -> String.leb b c = true -> String.leb a c = true.
Proof.
  intros H1 H2. apply Is_true_true. change (String.le a c).
  transitivity b; unfold String.le; by apply Is_true_true.
Qed.

Lemma string_ltb_irrefl a : String.ltb a a = false.
Proof.
  destruct (String.ltb a a) eqn:E; [|done].
  apply string_ltb_iff in E as [_ []]. done.
Qed.

Lemma string_ltb_trans a b c :
  String.ltb a b = true -> String.ltb b c = true -> String.ltb a c = true.
Proof.
  rewrite !string_ltb_iff. intros [H1 N1] [H2 N2].
  split; [by eapply string_leb_trans|]. intros ->.
  apply N1. by apply String.leb_antisym.
Qed.

Lemma string_ltb_total a b : a <> b -> String.ltb a b = true \/ String.ltb b a = true.
Proof.
  intros Hne. rewrite !string_ltb_iff.
  destruct (String.leb_total a b); [left|right]; naive_solver.
Qed.

Definition str_lt (a b : string) : Prop := String.ltb a b = true.

Lemma insert_uniq_sorted x l :
  StronglySorted str_lt l ->
  StronglySorted str_lt (insert_uniq String.eqb String.leb x l).
Proof.
  induction l as [|y l IH]; intros Hl; simpl.
  - repeat constructor.
  - apply StronglySorted_inv in Hl as [Hl Hy].
    destruct (String.eqb_spec x y) as [->|Hne].
    + by constructor.
    + destruct (String.leb x y) eqn:Hxy.
      * assert (Hlt : str_lt x y) by (by apply string_ltb_iff).
        constructor; [by constructor|]. constructor; [done|].
        eapply Forall_impl; [exact Hy|]. intros z Hz. by eapply string_ltb_trans.
      * assert (Hlt : str_lt y x).
        { destruct (string_ltb_total x y Hne) as [H|H]; [|done].
          apply string_ltb_iff in H as [H _]. congruence. }
        constructor; [by apply IH|]. apply List.Forall_forall.
        intros z Hz%insert_uniq_In. destruct Hz as [->|Hz]; [done|].
        by eapply List.Forall_forall in Hy.
Qed.

Lemma le_fit_sorted values : StronglySorted str_lt (le_fit values).
Proof.
  unfold le_fit, np_unique. induction values as [|x values IH]; simpl.
  - constructor.
  - by apply insert_uniq_sorted.
Qed.

Lemma sorted_NoDup l : StronglySorted str_lt l -> NoDup l.
Proof.
  induction l as [|y l IH]; intros Hl; [constructor|].
  apply StronglySorted_inv in Hl as [Hl Hy]. constructor; [|by apply IH].
  intros Hin%list_elem_of_In. eapply List.Forall_forall in Hy; [|exact Hin].
  unfold str_lt in Hy. by rewrite string_ltb_irrefl in Hy.
Qed.

Lemma filter_none {A} (f : A -> bool) l :
  (forall x, In x l -> f x = false) -> List.filter f l = [].
Proof.
  induction l as [|x l IH]; intros H; simpl; [done|].
  rewrite (H x (or_introl eq_refl)). apply IH. intros y Hy. apply H. by right.
Qed.

Lemma index_of_sorted l v :
  StronglySorted str_lt l -> In v l ->
  index_of v l = Some (length (List.filter (fun w => String.ltb w v) l)).
Proof.
  induction l as [|y l IH]; intros Hl Hv; [done|].
  apply StronglySorted_inv in Hl as [Hl Hy]. simpl.
  destruct (String.eqb_spec v y) as [->|Hne].
  - rewrite string_ltb_irrefl, filter_none; [done|].
    intros w Hw. eapply List.Forall_forall in Hy; [|exact Hw].
    destruct (String.ltb w y) eqn:E; [|done].
    pose proof (string_ltb_trans _ _ _ E Hy) as F.
    by rewrite string_ltb_irrefl in F.
  - destruct Hv as [->|Hv]; [done|].
    eapply List.Forall_forall in Hy as Hyv; [|exact Hv]. unfold str_lt in Hyv.
    rewrite Hyv, (IH Hl Hv). done.
Qed.

Lemma sorted_unique a b :
  StronglySorted str_lt a -> StronglySorted str_lt b ->
  (forall x, In x a <-> In x b) -> a = b.
Proof.
  revert b. induction a as [|x a IH]; intros [|y b] Ha Hb Hab.
  - done.
  - exfalso. apply (Hab y). by left.
  - exfalso. apply (Hab x). by left.
  - apply StronglySorted_inv in Ha as [Ha Hx].
    apply StronglySorted_inv in Hb as [Hb Hy].
    assert (Hbelow : forall z w l, Forall (str_lt z) l -> In w l -> w <> z).
    { intros z w l Hl Hw ->. eapply List.Forall_forall in Hl; [|exact Hw].
      unfold str_lt in Hl. by rewrite string_ltb_irrefl in Hl. }
    assert (x = y) as <-.
    { destruct (decide (x = y)) as [|Hne]; [done|]. exfalso.
      destruct (string_ltb_total x y Hne) as [H|H].
      - assert (Hx' : In x (y :: b)) by (apply Hab; by left).
        destruct Hx' as [->|Hx']; [done|].
        eapply List.Forall_forall in Hy; [|exact Hx'].
        pose proof (string_ltb_trans _ _ _ H Hy) as F.
        by rewrite string_ltb_irrefl in F.
      - assert (Hy' : In y (x :: a)) by (apply Hab; by left).
        destruct Hy' as [->|Hy']; [done|].
        eapply List.Forall_forall in Hx; [|exact Hy'].
        pose proof (string_ltb_trans _ _ _ H Hx) as F.
        by rewrite string_ltb_irrefl in F. }
    f_equal. apply IH; [done|done|]. intros z. split; intros Hz.
    + assert (Hz' : In z (x :: b)) by (apply Hab; by right).
      destruct Hz' as [->|]; [|done]. by apply (Hbelow z z a) in Hz.
    + assert (Hz' : In z (x :: a)) by (apply Hab; by right).
      destruct Hz' as [->|]; [|done]. by apply (Hbelow z z b) in Hz.
Qed.

Lemma filter_length_perm {A} (f : A -> bool) l k :
  Permutation l k -> length (List.filter f l) = length (List.filter f k).
Proof.
  induction 1 as [|x l k _ IH|x y l|l k m _ IH1 _ IH2]; simpl.
  - done.
  - destruct (f x); simpl; lia.
  - destruct (f x), (f y); simpl; lia.
  - lia.
Qed.

Lemma le_fit_perm values : Permutation (le_fit values) (remove_dups values).
Proof.
  apply NoDup_Permutation.
  - apply sorted_NoDup, le_fit_sorted.
  - apply NoDup_remove_dups.
  - intros x. rewrite elem_of_remove_dups, !list_elem_of_In. apply le_fit_In.
Qed.

Lemma index_of_nth_error v l i : index_of v l = Some i -> nth_error l i = Some v.
Proof.
  revert i. induction l as [|y l IH]; intros i; simpl; [done|].
  destruct (String.eqb_spec v y) as [->|_].
  - by intros [= <-].
  - destruct (index_of v l) as [j|] eqn:E; [|done]. intros [= <-]. simpl.
    by apply IH.
Qed.

(** X1: the code of a listed value is the number of distinct listed values
    below it. *)
Theorem label_code_counts_smaller values v :
  In v values ->
  le_code (le_fit values) (CStr v) =
    inr (CNum (Z.of_nat (length (List.filter (fun w => String.ltb w v)
                                        (remove_dups values))))).
Proof.
  intros Hv. unfold le_code.
  rewrite (index_of_sorted _ _ (le_fit_sorted values)) by (by apply le_fit_In).
  do 3 f_equal. apply filter_length_perm.
  apply NoDup_Permutation.
  - apply sorted_NoDup, le_fit_sorted.
  - apply NoDup_remove_dups.
  - intros x. rewrite elem_of_remove_dups, !list_elem_of_In. apply le_fit_In.
Qed.

(** The classes depend only on the set of listed values. *)
Lemma le_fit_set_determined l1 l2 :
  (forall x, In x l1 <-> In x l2) -> le_fit l1 = le_fit l2.
Proof.
  intros H. apply sorted_unique; try apply le_fit_sorted.
  intros x. rewrite !le_fit_In. apply H.
Qed.

(** X2: decoding a code through [classes_] gives the value back, and codes
    stay below the number of distinct listed values. *)
Theorem label_code_roundtrip values v :
  In v values ->
  exists i, le_code (le_fit values) (CStr v) = inr (CNum (Z.of_nat i)) /\
    nth_error (le_fit values) i = Some v /\ i < length (remove_dups values).
Proof.
  intros Hv. unfold le_code.
  destruct (index_of v (le_fit values)) as [i|] eqn:E.
  - exists i. split; [done|]. apply index_of_nth_error in E. split; [done|].
    rewrite <- (Permutation_length (le_fit_perm values)).
    by apply nth_error_Some; rewrite E.
  - rewrite (index_of_sorted _ _ (le_fit_sorted values)) in E
      by (by apply le_fit_In). done.
Qed.

(** X3: two label-encoding mappings with the same keys in the same order and,
    per key, the same set of listed values, run the same encoding pass. *)
Theorem label_encode_pass_set_determined le1 le2 xtr xte s :
  Forall2 (fun a b => fst a = fst b /\ forall x, In x (snd a) <-> In x (snd b))
          le1 le2 ->
  label_encode_pass le1 xtr xte s = label_encode_pass le2 xtr xte s.
Proof.
  intros H. revert s. induction H as [|[c1 v1] [c2 v2] le1 le2 [Hc Hv] _ IH];
    intros s; simpl in *; [done|].
  subst c2. rewrite (le_fit_set_determined v1 v2 Hv).
  unfold bind. destruct (encode_column xtr c1 (le_fit v2) s) as [[e|[]] s1]; [done|].
  destruct xte as [r|].
  - destruct (encode_column r c1 (le_fit v2) s1) as [[e|[]] s2]; [done|].
    apply IH.
  - apply IH.
Qed.

(** ** Successful runs: plans, widths and names *)

Section Props.

Variable median_imputer : list cell -> list cell -> list cell.
Variable standard_scaler : list cell -> list cell -> list cell.
Variable robust_scaler : list cell -> list cell -> list cell.

(** ** Lengths of the transformer output *)

Lemma rmap_length {A B} (g : A -> res B) l l' :
  rmap g l = inr l' -> length l' = length l.
Proof.
  revert l'. induction l as [|x l IH]; intros l' H; simpl in H.
  - by injection H as <-.
  - destruct (g x); [discriminate|]. simpl in H.
    destruct (rmap g l) eqn:E; [discriminate|]. injection H as <-.
    simpl. by rewrite (IH _ eq_refl).
Qed.

Lemma rmap_forall {A B} (g : A -> res B) l l' :
  rmap g l = inr l' -> forall x, In x l -> exists y, In y l' /\ g x = inr y.
Proof.
  revert l'. induction l as [|x l IH]; intros l' H z Hz; [done|]. simpl in H.
  destruct (g x) as [|y] eqn:Ex; [discriminate|]. simpl in H.
  destruct (rmap g l) as [|ys] eqn:E; [discriminate|]. injection H as <-.
  destruct Hz as [<-|Hz].
  - exists y. split; [by left|done].
  - destruct (IH ys eq_refl z Hz) as (y' & ? & ?). exists y'. split; [by right|done].
Qed.

Lemma rmap_sum {A B} (g : A -> res (list B)) (h : A -> nat) l bs :
  rmap g l = inr bs ->
  (forall x y, In x l -> g x = inr y -> length y = h x) ->
  length (concat bs) = sum_list_with h l.
Proof.
  revert bs. induction l as [|x l IH]; intros bs H Hh; simpl in H.
  - by injection H as <-.
  - destruct (g x) as [|y] eqn:Ex; [discriminate|]. simpl in H.
    destruct (rmap g l) as [|ys] eqn:E; [discriminate|]. injection H as <-.
    simpl. rewrite length_app, (Hh x y (or_introl eq_refl) Ex).
    rewrite (IH ys eq_refl); [done|]. intros x' y' Hx'. apply Hh. by right.
Qed.

(** The number of indicator columns of the fitted one-hot encoder. *)
Definition ohe_width (f : fitted) : nat :=
  sum_list_with (fun nc => length (kept_cats (p_drop_first (fit_plan f)) (snd nc)))
    (fit_cats f).

Lemma ohe_blocks_length f t bs :
  ohe_blocks f t = inr bs -> length bs = ohe_width f.
Proof.
  unfold ohe_blocks, rbind. destruct (rmap _ _) as [|bss] eqn:E; [discriminate|].
  intros [= <-]. unfold ohe_width. eapply rmap_sum; [exact E|].
  intros nc y _ Hy. simpl in Hy. destruct (get_col _ t); [discriminate|].
  destruct (forallb _ _); [|discriminate]. injection Hy as <-.
  by rewrite length_map.
Qed.

Lemma get_feature_names_length f ins :
  length ins = length (fit_cats f) -> length (get_feature_names f ins) = ohe_width f.
Proof.
  unfold get_feature_names, ohe_width.
  generalize (fit_cats f). induction ins as [|n ins IH]; intros [|nc cats] Hl;
    simpl in *; try done.
  rewrite length_app, length_map, IH by lia. done.
Qed.

Lemma rmap_in_inv {A B} (g : A -> res B) l l' :
  rmap g l = inr l' -> forall y, In y l' -> exists x, In x l /\ g x = inr y.
Proof.
  revert l'. induction l as [|x l IH]; intros l' H y Hy; simpl in H.
  - injection H as <-. done.
  - destruct (g x) as [|z] eqn:Ex; [discriminate|]. simpl in H.
    destruct (rmap g l) as [|zs] eqn:E; [discriminate|]. injection H as <-.
    destruct Hy as [<-|Hy].
    + exists x. split; [by left|done].
    + destruct (IH zs eq_refl y Hy) as (x' & ? & ?). exists x'. split; [by right|done].
Qed.

Lemma fit_spec p t f :
  fit p t = inr f ->
  fit_plan f = p /\ fit_train f = t /\
  (forall n, In n (claimed p) -> exists c, ct_col n t = inr c) /\
  length (fit_cats f) = length (p_ohe p) /\
  (forall n, In n (p_ohe p) -> exists cs ctr, In (n, cs) (fit_cats f) /\
     ct_col n t = inr ctr /\ np_unique_cells (col_vals ctr) = inr cs).
Proof.
  intros H. destruct (fit_cats_spec _ _ _ H) as (Hp & Ht & Hfst & Hcats).
  split; [done|]. split; [done|]. split.
  { unfold fit, rbind in H.
    destruct (rmap _ (claimed p)) as [|u] eqn:E; [discriminate|].
    intros n Hn. destruct (rmap_forall _ _ _ E n Hn) as (c & _ & Hc). eauto. }
  split; [by rewrite <- Hfst, length_map|].
  intros n Hn. rewrite <- Hfst in Hn.
  apply in_map_iff in Hn as ([n' cs] & Hn' & Hin). simpl in Hn'. subst n'.
  destruct (Hcats _ _ Hin) as (ctr & ? & ?). eauto.
Qed.

Lemma transform_inv f t a :
  transform median_imputer standard_scaler robust_scaler f t = inr a ->
  exists x bs, select_fitted f t = inr x /\
    transform_blocks median_imputer standard_scaler robust_scaler f x = inr bs /\
    np_hstack bs = inr a.
Proof.
  unfold transform, rbind.
  destruct (select_fitted f t) as [|x] eqn:E1; [discriminate|].
  destruct (transform_blocks _ _ _ f x) as [|bs] eqn:E2; [discriminate|].
  intros H. by exists x, bs.
Qed.

Lemma transform_blocks_ohe f x bs :
  transform_blocks median_imputer standard_scaler robust_scaler f x = inr bs ->
  exists ob, ohe_blocks f x = inr ob.
Proof.
  unfold transform_blocks, rbind.
  destruct (rmap _ _); [discriminate|].
  destruct (cat_imputer_transform _); [discriminate|].
  destruct (numeric_blocks _ _ _ _); [discriminate|].
  destruct (ohe_blocks f x) as [|ob]; [discriminate|]. eauto.
Qed.

(** A column of the selected frame is the one column of that name in the
    frame given to [transform]. *)
Lemma select_fitted_col f t x c :
  select_fitted f t = inr x -> In c (df_cols x) ->
  List.filter (fun c' => String.eqb (col_name c') (col_name c)) (df_cols t) = [c].
Proof.
  unfold select_fitted, rbind.
  destruct (rmap _ _) as [|cols] eqn:E; [discriminate|].
  intros [= <-] Hc. simpl in Hc.
  destruct (rmap_in_inv _ _ _ E c Hc) as (n & _ & Hg).
  destruct (List.filter _ (df_cols t)) as [|c' [|]] eqn:Ef; try discriminate.
  injection Hg as ->.
  assert (Hin : In c (List.filter (fun c' => String.eqb (col_name c') n) (df_cols t)))
    by (rewrite Ef; by left).
  apply filter_In in Hin as [_ Heq]. apply String.eqb_eq in Heq.
  by rewrite Heq.
Qed.

Lemma select_fitted_get_col f t x n c :
  select_fitted f t = inr x -> get_col n x = inr c -> get_col n t = inr c.
Proof.
  intros Hs Hg. unfold get_col in Hg.
  destruct (List.filter _ (df_cols x)) as [|c' [|]] eqn:Ef; try discriminate.
  injection Hg as ->.
  assert (Hin : In c (List.filter (fun c => String.eqb (col_name c) n) (df_cols x)))
    by (rewrite Ef; by left).
  apply filter_In in Hin as [Hin Heq]. apply String.eqb_eq in Heq.
  unfold get_col. rewrite <- Heq, (select_fitted_col _ _ _ _ Hs Hin). done.
Qed.

Lemma ct_col_get_col n t c : ct_col n t = inr c -> get_col n t = inr c.
Proof.
  unfold ct_col, get_col. by destruct (List.filter _ _) as [|? [|]].
Qed.

(** ** Counting columns by name *)

Lemma mem_In x l : mem x l = true <-> In x l.
Proof.
  unfold mem. rewrite existsb_exists. split.
  - intros (y & Hy & E). by apply String.eqb_eq in E as ->.
  - intros H. exists x. split; [done|]. apply String.eqb_refl.
Qed.

Lemma mem_app x l1 l2 : mem x (l1 ++ l2) = mem x l1 || mem x l2.
Proof. apply existsb_app. Qed.

(** ** One-hot categories of the test frame *)

Lemma insert_uniq_In_cell x y l :
  In x (insert_uniq cell_eqb cell_leb y l) <-> x = y \/ In x l.
Proof.
  induction l as [|z l IH]; simpl.
  - naive_solver.
  - unfold cell_eqb. case_bool_decide as Hyz; [subst z; naive_solver|].
    destruct (cell_leb y z); simpl; [naive_solver|]. rewrite IH. naive_solver.
Qed.

Lemma np_unique_In_cell l v :
  In v (np_unique cell_eqb cell_leb l) <-> In v l.
Proof.
  unfold np_unique. induction l as [|x l IH]; simpl; [done|].
  rewrite insert_uniq_In_cell. naive_solver.
Qed.

Lemma np_unique_cells_In l cs v :
  np_unique_cells l = inr cs -> In v cs -> In v l.
Proof.
  unfold np_unique_cells. cbv zeta.
  assert (Hnan : In v (if existsb is_missing l then [CMissing] else []) -> In v l).
  { destruct (existsb is_missing l) eqn:E; [|done]. intros [<-|[]].
    apply existsb_exists in E as (w & Hw & Hm).
    destruct w; try discriminate Hm. exact Hw. }
  destruct (List.filter _ l) as [|c present] eqn:Ef.
  - intros [= <-]. exact Hnan.
  - destruct (forallb _ _); [|discriminate]. intros [= <-] Hv.
    apply in_app_iff in Hv as [Hv|Hv]; [|by apply Hnan].
    apply (np_unique_In_cell (c :: present)) in Hv. rewrite <- Ef in Hv.
    by apply filter_In in Hv as [? _].
Qed.

Lemma ohe_blocks_known f t bs :
  ohe_blocks f t = inr bs ->
  forall nc, In nc (fit_cats f) ->
    exists c, get_col (fst nc) t = inr c /\ forall v, In v (col_vals c) -> In v (snd nc).
Proof.
  unfold ohe_blocks, rbind. destruct (rmap _ _) as [|bss] eqn:E; [discriminate|].
  intros _ nc Hnc. destruct (rmap_forall _ _ _ E nc Hnc) as (y & _ & Hy).
  simpl in Hy. destruct (get_col _ t) as [|c]; [discriminate|].
  destruct (forallb _ _) eqn:Ef; [|discriminate].
  exists c. split; [done|]. intros v Hv.
  rewrite forallb_forall in Ef. specialize (Ef v Hv).
  apply bool_decide_eq_true in Ef. by apply list_elem_of_In.
Qed.

(** X5: a successful call with a test frame never meets, in a one-hot
    encoded column of the test frame, a value that the same column of the
    training frame does not hold. *)
Theorem test_categories_seen_in_train X_train rte tte auto OHE std rob num cat
    label_encode s res s' :
  preproc median_imputer standard_scaler robust_scaler X_train (PDataFrame rte)
    auto OHE std rob num cat label_encode s = (inr res, s') ->
  s !! rte = Some tte ->
  exists rtr b ttr, X_train = PDataFrame rtr /\ auto = PBool b /\
    s !! rtr = Some ttr /\
    forall n, In n (p_ohe (plan_of b ttr OHE std rob num cat)) ->
      exists ctr cte, get_col n ttr = inr ctr /\ get_col n tte = inr cte /\
        forall v, In v (col_vals cte) -> In v (col_vals ctr).
Proof.
  destruct res as [xtr' xte']. intros H Hte.
  apply preproc_success_plan in H
    as (rtr & b & le & t0 & f & s5 & -> & -> & _ & Ht0 & Hf & _ & Htest & _ & _).
  exists rtr, b, t0. split; [done|]. split; [done|]. split; [done|].
  intros n Hn.
  destruct (Htest rte tte eq_refl Hte) as (a & _ & _ & Ha & _ & _ & _).
  destruct (transform_inv _ _ _ Ha) as (x & bs & Hsel & Hbs & _).
  destruct (transform_blocks_ohe _ _ _ Hbs) as [ob Hob].
  destruct (fit_spec _ _ _ Hf) as (_ & _ & _ & _ & Hcats).
  destruct (Hcats n Hn) as (cs & ctr & Hin & Hctr & Hu).
  destruct (ohe_blocks_known _ _ _ Hob (n, cs) Hin) as (cte & Hcte & Hv).
  exists ctr, cte. split; [by apply ct_col_get_col|].
  split; [by eapply select_fitted_get_col|].
  intros v Hv'. eapply np_unique_cells_In; [exact Hu|]. by apply Hv.
Qed.

(** ** Column names without one-hot encoding *)

(** X7: in manual mode with an empty [OHE] list, a successful call returns a
    training frame with exactly the input's column names, in order. *)
Theorem manual_no_ohe_keeps_names X_train X_test OHE std rob num cat
    label_encode s xtr' xte' s' :
  seq_of OHE = [] ->
  preproc median_imputer standard_scaler robust_scaler X_train X_test
    (PBool false) OHE std rob num cat label_encode s = (inr (xtr', xte'), s') ->
  exists rtr ttr t', X_train = PDataFrame rtr /\ s !! rtr = Some ttr /\
    s' !! xtr' = Some t' /\ df_names t' = df_names ttr.
Proof.
  intros HO H.
  apply preproc_success_plan in H
    as (rtr & b & le & t0 & f & s5 & -> & [= <-] & _ & Ht0 & Hf &
        (data & ntr & _ & Hn & Hntr) & _ & _ & Hle & _).
  destruct (fit_spec _ _ _ Hf) as (Hp & _).
  assert (Hnames : output_names f t0 = df_names t0).
  { unfold output_names. rewrite Hp. simpl. rewrite HO. simpl.
    apply filter_all_true. }
  apply mk_frame_names in Hn. rewrite Hnames in Hn.
  pose proof (label_encode_pass_names _ _ _ _ _ Hle xtr') as E.
  rewrite Hntr in E. destruct (s' !! xtr') as [t'|]; [|discriminate].
  injection E as E. exists rtr, t0, t'. rewrite E, Hn. done.
Qed.

(** ** A column the training frame lacks *)

Lemma filter_name_le1 n l :
  NoDup (map col_name l) ->
  length (List.filter (fun c => String.eqb (col_name c) n) l) <= 1.
Proof.
  induction l as [|c l IH]; simpl; [lia|]. intros Hnd.
  inversion Hnd as [|? ? Hc Hnd']; subst.
  destruct (String.eqb_spec (col_name c) n) as [<-|]; simpl; [|by apply IH].
  rewrite filter_none; [simpl; lia|].
  intros c' Hc'. destruct (String.eqb_spec (col_name c') (col_name c)) as [E|]; [|done].
  exfalso. apply Hc. rewrite <- E. apply list_elem_of_In. by apply in_map.
Qed.

Lemma ct_col_err_nodup n t e :
  NoDup (df_names t) -> ct_col n t = inl e -> e = NotAColumn.
Proof.
  intros Hnd. pose proof (filter_name_le1 n (df_cols t) Hnd) as Hl.
  unfold ct_col.
  destruct (List.filter _ _) as [|? [|? ?]]; simpl in Hl;
    [by intros [= <-]|discriminate|lia].
Qed.

Lemma ct_col_absent n t : ~ In n (df_names t) -> ct_col n t = inl NotAColumn.
Proof.
  intros Hn. unfold ct_col. rewrite filter_none; [done|].
  intros c Hc. destruct (String.eqb_spec (col_name c) n) as [<-|]; [|done].
  exfalso. apply Hn. unfold df_names. by apply in_map.
Qed.

Lemma rmap_first_error {A B} (g : A -> res B) l x e :
  In x l -> g x = inl e ->
  exists y e', In y l /\ g y = inl e' /\ rmap g l = inl e'.
Proof.
  induction l as [|z l IH]; intros Hx Hg; [done|]. simpl.
  destruct (g z) as [e'|v] eqn:Ez.
  - exists z, e'. split; [by left|]. done.
  - destruct Hx as [<-|Hx]; [congruence|].
    destruct (IH Hx Hg) as (y & e' & Hy & Hgy & Hr).
    exists y, e'. split; [by right|]. split; [done|]. simpl. by rewrite Hr.
Qed.

Lemma manual_run_fit_error rtr ttr X_test OHE std rob num cat le s e :
  args_ok (preproc_args (PDataFrame rtr) X_test (PBool false) OHE std rob num
             cat (PDict le)) = true ->
  s !! rtr = Some ttr ->
  (forall r, X_test = PDataFrame r -> is_Some (s !! r)) ->
  fit (plan_of false ttr OHE std rob num cat) ttr = inl e ->
  fst (preproc median_imputer standard_scaler robust_scaler (PDataFrame rtr)
         X_test (PBool false) OHE std rob num cat (PDict le) s) = inl e.
Proof.
  intros Hargs Htr Hte Hfit. unfold preproc.
  rewrite (bind_inr _ _ _ _ _ (check_args_ok _ s Hargs)). cbv iota beta.
  rewrite (bind_inr _ _ _ _ _ (df_copy_some _ _ _ Htr)).
  assert (HX : arg_ok "X_test" X_test = true).
  { unfold args_ok, preproc_args in Hargs. cbn [forallb fst snd] in Hargs.
    by apply andb_prop in Hargs as [_ [? _]%andb_prop]. }
  unfold plan_of in Hfit.
  set (p := manual_plan (seq_of OHE) (seq_of std) (seq_of rob) (seq_of num)
              (seq_of cat)) in *.
  assert (Hlift : forall s2, lift (fit p ttr) s2 = (inl e, s2))
    by (intros; unfold lift; by rewrite Hfit).
  destruct X_test as [r| | | | | | | |];
    try (vm_compute in HX; discriminate HX).
  - destruct (Hte r eq_refl) as [t Ht].
    assert (Ht' : (s ++ [ttr]) !! r = Some t).
    { rewrite lookup_snoc_lt; [done|]. by apply lookup_lt_Some in Ht. }
    assert (E : (r' <- df_copy r ;; ret (Some r')) (s ++ [ttr]) =
                (inr (Some (List.length (s ++ [ttr]))), (s ++ [ttr]) ++ [t])).
    { by rewrite (bind_inr _ _ _ _ _ (df_copy_some _ _ _ Ht')). }
    rewrite (bind_inr _ _ _ _ _ E).
    assert (Hs2 : ((s ++ [ttr]) ++ [t]) !! List.length s = Some ttr).
    { rewrite lookup_snoc_lt by (rewrite length_app; simpl; lia).
      apply lookup_snoc. }
    rewrite (bind_inr _ _ _ _ _ (eq_refl : ret p _ = (inr p, _))).
    rewrite (bind_inr _ _ _ _ _ (load_some _ _ _ Hs2)).
    by rewrite (bind_inl _ _ _ _ _ (Hlift _)).
  - rewrite (bind_inr _ _ _ _ _ (eq_refl : ret None (s ++ [ttr]) = _)).
    rewrite (bind_inr _ _ _ _ _ (eq_refl : ret p _ = (inr p, _))).
    rewrite (bind_inr _ _ _ _ _ (load_some _ _ _ (lookup_snoc s ttr))).
    by rewrite (bind_inl _ _ _ _ _ (Hlift _)).
Qed.

(** X8: in manual mode, when the training frame has no two columns of the
    same name, naming in any of [categorical_impute], [numerical_impute],
    [OHE], [standard_scale] or [robust_scale] a column that the training
    frame lacks makes a well-typed call fail with sklearn's [ValueError]
    "A given column is not a column of the dataframe" ([NotAColumn]). *)
Theorem manual_missing_column_not_a_column rtr ttr X_test OHE std rob num cat
    le s n :
  args_ok (preproc_args (PDataFrame rtr) X_test (PBool false) OHE std rob num
             cat (PDict le)) = true ->
  s !! rtr = Some ttr ->
  (forall r, X_test = PDataFrame r -> is_Some (s !! r)) ->
  NoDup (df_names ttr) ->
  In n (seq_of cat ++ seq_of num ++ seq_of OHE ++ seq_of std ++ seq_of rob) ->
  ~ In n (df_names ttr) ->
  fst (preproc median_imputer standard_scaler robust_scaler (PDataFrame rtr)
         X_test (PBool false) OHE std rob num cat (PDict le) s) =
  inl NotAColumn.
Proof.
  intros Hargs Htr Hte Hnd Hn Habs.
  destruct (rmap_first_error (fun n => ct_col n ttr) _ n _ Hn (ct_col_absent _ _ Habs))
    as (m & e & _ & Hgm & Hr).
  apply ct_col_err_nodup in Hgm as ->; [|done].
  apply manual_run_fit_error with ttr; [done|done|done|].
  unfold fit, plan_of, claimed, manual_plan.
  cbn [p_cat_imp p_num_imp p_ohe p_std p_rob]. by rewrite Hr.
Qed.

End Props.

(** ** Where [ConfigConflict] comes from *)

Section NoConflict.

Variable median_imputer : list cell -> list cell -> list cell.
Variable standard_scaler : list cell -> list cell -> list cell.
Variable robust_scaler : list cell -> list cell -> list cell.

(** A computation that never fails with [ConfigConflict]. *)
Definition no_cc {A} (m : M A) : Prop :=
  forall s, fst (m s) <> inl ConfigConflict.

Definition rno_cc {A} (r : res A) : Prop := r <> inl ConfigConflict.

Lemma no_cc_bind {A B} (m : M A) (k : A -> M B) :
  no_cc m -> (forall a, no_cc (k a)) -> no_cc (bind m k).
Proof.
  intros Hm Hk s. unfold bind. specialize (Hm s). revert Hm.
  destruct (m s) as [[e|a] s']; simpl; [intros H [= ->]; by apply H|]. intros _. apply Hk.
Qed.

Lemma no_cc_ret {A} (a : A) : no_cc (ret a).
Proof. by intros s. Qed.

Lemma no_cc_raise {A} e : e <> ConfigConflict -> no_cc (@raise A e).
Proof. intros He s [= ->]. done. Qed.

Lemma no_cc_lift {A} (r : res A) : rno_cc r -> no_cc (lift r).
Proof. by intros Hr s. Qed.

Lemma no_cc_load r : no_cc (load r).
Proof. intros s. unfold load. by destruct (s !! r). Qed.

Lemma no_cc_alloc t : no_cc (alloc t).
Proof. by intros s. Qed.

Lemma no_cc_store_set r t : no_cc (store_set r t).
Proof. intros s. unfold store_set. by case_decide. Qed.

Lemma rno_cc_rbind {A B} (r : res A) (k : A -> res B) :
  rno_cc r -> (forall a, rno_cc (k a)) -> rno_cc (rbind r k).
Proof. intros Hr Hk. destruct r as [e|a]; simpl; [intros [= ->]; by apply Hr|apply Hk]. Qed.

Lemma rno_cc_inr {A} (a : A) : rno_cc (inr a).
Proof. done. Qed.

Lemma rno_cc_inl {A} e : e <> ConfigConflict -> rno_cc (@inl _ A e).
Proof. by intros He [= ->]. Qed.

Lemma rno_cc_rmap {A B} (g : A -> res B) l :
  (forall x, rno_cc (g x)) -> rno_cc (rmap g l).
Proof.
  intros Hg. induction l as [|x l IH]; simpl; [done|].
  apply rno_cc_rbind; [done|]. intros y. by apply rno_cc_rbind.
Qed.

Lemma rno_cc_get_col n t : rno_cc (get_col n t).
Proof. unfold get_col. by repeat case_match. Qed.

Lemma rno_cc_np_unique_cells l : rno_cc (np_unique_cells l).
Proof. unfold np_unique_cells. by repeat case_match. Qed.

Lemma rno_cc_le_code classes v : rno_cc (le_code classes v).
Proof. unfold le_code. by repeat case_match. Qed.

Lemma rno_cc_mk_frame data names : rno_cc (mk_frame data names).
Proof. unfold mk_frame. by case_match. Qed.

Lemma rno_cc_ct_col n t : rno_cc (ct_col n t).
Proof. unfold ct_col. by repeat case_match. Qed.

Lemma rno_cc_cat_imputer_fit cols : rno_cc (cat_imputer_fit cols).
Proof. unfold cat_imputer_fit. by repeat case_match. Qed.

Lemma rno_cc_cat_imputer_transform cols : rno_cc (cat_imputer_transform cols).
Proof. unfold cat_imputer_transform. by repeat case_match. Qed.

Lemma rno_cc_np_hstack bs : rno_cc (np_hstack bs).
Proof. unfold np_hstack. by repeat case_match. Qed.

Create HintDb nocc.

#[local] Hint Resolve no_cc_ret no_cc_load no_cc_alloc no_cc_store_set
  rno_cc_inr rno_cc_get_col rno_cc_np_unique_cells rno_cc_le_code
  rno_cc_mk_frame rno_cc_ct_col rno_cc_cat_imputer_fit
  rno_cc_cat_imputer_transform rno_cc_np_hstack : nocc.

Ltac nocc :=
  repeat first
    [ assumption
    | apply no_cc_bind; [|intros ?]
    | apply rno_cc_rbind; [|intros ?]
    | apply rno_cc_rmap; intros ?
    | apply no_cc_lift
    | apply no_cc_raise; discriminate
    | apply rno_cc_inl; discriminate
    | match goal with |- rno_cc (if _ then _ else _) => case_match end
    | match goal with |- rno_cc (match _ with _ => _ end) => case_match end
    | progress eauto with nocc ].

Lemma no_cc_check_args args : no_cc (check_args args).
Proof.
  induction args as [|[k v] rest IH]; simpl; [apply no_cc_ret|].
  case_match; [done|]. by apply no_cc_raise.
Qed.

Lemma rno_cc_fit p t : rno_cc (fit p t).
Proof. unfold fit. nocc. Qed.

Lemma rno_cc_numeric_blocks kernel f t cols :
  rno_cc (numeric_blocks kernel f t cols).
Proof. unfold numeric_blocks. nocc. Qed.

Lemma rno_cc_ohe_blocks f t : rno_cc (ohe_blocks f t).
Proof. unfold ohe_blocks. nocc. Qed.

Lemma rno_cc_select_fitted f t : rno_cc (select_fitted f t).
Proof. unfold select_fitted. nocc. Qed.

Lemma rno_cc_transform_blocks f x :
  rno_cc (transform_blocks median_imputer standard_scaler robust_scaler f x).
Proof.
  unfold transform_blocks. nocc; auto using rno_cc_numeric_blocks, rno_cc_ohe_blocks.
Qed.

Lemma rno_cc_transform f t :
  rno_cc (transform median_imputer standard_scaler robust_scaler f t).
Proof.
  unfold transform. nocc; auto using rno_cc_select_fitted, rno_cc_transform_blocks.
Qed.

Lemma rno_cc_le_transform classes c : rno_cc (le_transform classes c).
Proof. unfold le_transform. nocc. Qed.

Lemma no_cc_transformed_frame f names r :
  no_cc (transformed_frame median_imputer standard_scaler robust_scaler
           f names r).
Proof. unfold transformed_frame. nocc; auto using rno_cc_transform. Qed.

Lemma no_cc_label_encode_pass le xtr xte : no_cc (label_encode_pass le xtr xte).
Proof.
  induction le as [|[column values] rest IH]; simpl; [apply no_cc_ret|].
  unfold encode_column. nocc; auto using rno_cc_le_transform. destruct xte; nocc;
    auto using rno_cc_le_transform.
Qed.

#[local] Hint Resolve rno_cc_fit rno_cc_transform no_cc_transformed_frame
  no_cc_label_encode_pass : nocc.

Lemma no_cc_preproc X_train X_test auto OHE std rob num cat label_encode :
  (auto = PBool true ->
   py_len OHE = 0 /\ py_len std = 0 /\ py_len rob = 0 /\ py_len num = 0 /\
   py_len cat = 0 /\ forall l, label_encode = PDict l -> l = []) ->
  no_cc (preproc median_imputer standard_scaler robust_scaler X_train X_test
           auto OHE std rob num cat label_encode).
Proof.
  intros Hauto. unfold preproc. apply no_cc_bind; [apply no_cc_check_args|].
  intros _. destruct X_train as [rtr| | | | | | | |]; try by nocc.
  destruct auto as [| |b| | | | | |]; try by nocc.
  destruct label_encode as [| | | | | | | |le]; try by nocc.
  assert (Hplan : b = true -> no_cc (auto_conflict_check OHE std rob num cat le)).
  { intros ->. destruct (Hauto eq_refl) as (H1 & H2 & H3 & H4 & H5 & H6).
    specialize (H6 _ eq_refl) as ->. intros s.
    unfold auto_conflict_check, manual_lists_empty.
    by rewrite H1, H2, H3, H4, H5. }
  clear Hauto. unfold df_copy.
  destruct b; [specialize (Hplan eq_refl)|]; nocc.
  all: try (destruct X_test; nocc).
  all: destruct a0; nocc.
Qed.

(** X9: [ConfigConflict] is raised only when [auto] is [True] and one of the
    five column lists or the label-encoding mapping is not empty. *)
Theorem config_conflict_only_from_auto X_train X_test auto OHE std rob num cat
    label_encode s :
  fst (preproc median_imputer standard_scaler robust_scaler X_train X_test
         auto OHE std rob num cat label_encode s) = inl ConfigConflict ->
  auto = PBool true /\
  (0 < py_len OHE \/ 0 < py_len std \/ 0 < py_len rob \/ 0 < py_len num \/
   0 < py_len cat \/ exists l, label_encode = PDict l /\ l <> []).
Proof.
  intros Hcc.
  pose proof (fun H => no_cc_preproc X_train X_test auto OHE std rob num cat
                         label_encode H s Hcc) as Hn.
  assert (Hauto : auto = PBool true).
  { destruct auto as [| |[]| | | | | |]; try done;
      exfalso; apply Hn; intros; discriminate. }
  split; [done|].
  destruct (Nat.eq_dec (py_len OHE) 0); [|lia].
  destruct (Nat.eq_dec (py_len std) 0); [|lia].
  destruct (Nat.eq_dec (py_len rob) 0); [|lia].
  destruct (Nat.eq_dec (py_len num) 0); [|lia].
  destruct (Nat.eq_dec (py_len cat) 0); [|lia].
  do 5 right.
  destruct label_encode as [| | | | | | | |[|kv l]];
    try (exfalso; apply Hn; intros _; repeat split; try done;
         intros ? E; by inversion E).
  by eexists.
Qed.

End NoConflict.

(** ** Row counts *)

(** Every column of the frame holds [k] cells. *)
Definition rows (k : nat) (t : DataFrame) : Prop :=
  Forall (fun c => length (col_vals c) = k) (df_cols t).

Lemma rmap_Forall {A B} (g : A -> res B) (P : B -> Prop) l bs :
  rmap g l = inr bs -> (forall x y, In x l -> g x = inr y -> P y) -> Forall P bs.
Proof.
  revert bs. induction l as [|x l IH]; intros bs H Hg; simpl in H.
  - by injection H as <-.
  - destruct (g x) as [|y] eqn:Ex; [discriminate|]. simpl in H.
    destruct (rmap g l) as [|ys] eqn:E; [discriminate|]. injection H as <-.
    constructor; [apply (Hg x); [by left|done]|]. apply IH; [done|].
    intros x' y' Hx'. apply Hg. by right.
Qed.

Lemma get_col_In n t c : get_col n t = inr c -> In c (df_cols t).
Proof.
  unfold get_col. destruct (List.filter _ _) as [|c' [|]] eqn:E; try discriminate.
  intros [= <-]. assert (Hc : In c' (List.filter (fun c => String.eqb (col_name c) n)
                                               (df_cols t))) by (rewrite E; by left).
  by apply filter_In in Hc as [? _].
Qed.

Lemma rows_col k t n c : rows k t -> get_col n t = inr c -> length (col_vals c) = k.
Proof.
  intros Hr Hc%get_col_In. unfold rows in Hr.
  by eapply List.Forall_forall in Hr.
Qed.

Lemma rows_setitem k t n d codes :
  rows k t -> length codes = k -> rows k (df_setitem n d codes t).
Proof.
  intros Hr Hl. unfold rows, df_setitem. cbn [df_cols].
  apply List.Forall_map. eapply Forall_impl; [exact Hr|].
  intros c Hc. by destruct (String.eqb (col_name c) n).
Qed.

Lemma le_transform_length classes c b :
  le_transform classes c = inr b -> length (snd b) = length (col_vals c).
Proof.
  unfold le_transform. destruct (col_vals c) as [|v vs]; [by intros [= <-]|].
  destruct (is_object_dtype _).
  - unfold rbind. destruct (rmap _ _) as [|codes] eqn:E; [discriminate|].
    intros [= <-]. by apply rmap_length in E.
  - by repeat case_match.
Qed.

Lemma encode_frame_rows k column classes t t' :
  encode_frame column classes t = inr t' -> rows k t -> rows k t'.
Proof.
  unfold encode_frame, rbind. intros H Hr.
  destruct (get_col column t) as [|c] eqn:Ec; [discriminate|].
  destruct (le_transform classes c) as [|b] eqn:Et; [discriminate|].
  injection H as <-. apply rows_setitem; [done|].
  rewrite (le_transform_length _ _ _ Et). by apply (rows_col k t column).
Qed.

Lemma label_encode_pass_rows k le xtr xte s s' r t :
  label_encode_pass le xtr xte s = (inr tt, s') ->
  s !! r = Some t -> rows k t -> exists t', s' !! r = Some t' /\ rows k t'.
Proof.
  assert (Hstep : forall r0 column classes s1 s2 t1,
            encode_column r0 column classes s1 = (inr tt, s2) ->
            s1 !! r = Some t1 -> rows k t1 ->
            exists t2, s2 !! r = Some t2 /\ rows k t2).
  { intros r0 column classes s1 s2 t1 H Ht1 Hr1.
    apply encode_column_inv in H as (u & u' & Hu & He & ->).
    destruct (decide (r = r0)) as [->|Hne].
    - exists u'. rewrite list_lookup_insert_eq by (by apply lookup_lt_Some in Hu).
      split; [done|]. rewrite Ht1 in Hu. injection Hu as <-.
      by apply (encode_frame_rows k column classes t1).
    - exists t1. by rewrite list_lookup_insert_ne by congruence. }
  revert s t. induction le as [|[column values] rest IH]; intros s t H Ht Hr;
    simpl in H.
  - injection H as <-. eauto.
  - apply bind_inv in H as ([] & s1 & H1 & H2).
    apply bind_inv in H2 as ([] & s2 & H2 & H3).
    destruct (Hstep _ _ _ _ _ _ H1 Ht Hr) as (t1 & Ht1 & Hr1).
    destruct xte as [r'|].
    + destruct (Hstep _ _ _ _ _ _ H2 Ht1 Hr1) as (t2 & Ht2 & Hr2).
      by apply (IH s2 t2).
    + injection H2 as <-. by apply (IH s1 t1).
Qed.

Lemma mk_frame_rows k a names nt :
  mk_frame a names = inr nt -> Forall (fun vals => length vals = k) (arr_cols a) ->
  rows k nt.
Proof.
  unfold mk_frame. case_match; [|discriminate]. intros [= <-] Hd.
  unfold rows. cbn [df_cols]. clear H.
  generalize (arr_dtype a) as d. intros d.
  revert names. induction (arr_cols a) as [|vals data IH]; intros [|n names]; simpl;
    try constructor.
  - by inversion Hd.
  - apply IH. by inversion Hd.
Qed.

Lemma np_hstack_rows k bs a :
  np_hstack bs = inr a -> Forall (fun b => length (snd b) = k) bs ->
  Forall (fun vals => length vals = k) (arr_cols a).
Proof.
  unfold np_hstack. destruct (np_result_dtype _) as [d|]; [|discriminate].
  intros [= <-] Hb. cbn [arr_cols]. apply List.Forall_map.
  eapply Forall_impl; [exact Hb|]. intros b Hl. by rewrite length_map.
Qed.

Lemma select_fitted_rows k f t x :
  rows k t -> select_fitted f t = inr x -> rows k x.
Proof.
  intros Hr Hs. unfold rows in *. apply List.Forall_forall. intros c Hc.
  pose proof (select_fitted_col _ _ _ _ Hs Hc) as E.
  assert (Hin : In c (List.filter (fun c' => String.eqb (col_name c') (col_name c))
                                  (df_cols t))) by (rewrite E; by left).
  apply filter_In in Hin as [Hin _].
  by eapply List.Forall_forall in Hr; [|exact Hin].
Qed.

Lemma cat_imputer_transform_rows k cols bs :
  Forall (fun c => length (col_vals c) = k) cols ->
  cat_imputer_transform cols = inr bs -> Forall (fun b => length (snd b) = k) bs.
Proof.
  intros Hc. unfold cat_imputer_transform.
  destruct (is_object_dtype _); [|destruct (_ && _); [|discriminate]];
    intros [= <-]; apply List.Forall_map; eapply Forall_impl; try exact Hc;
    intros c Hl; simpl; by rewrite length_map.
Qed.

Section Rows.

Variable median_imputer : list cell -> list cell -> list cell.
Variable standard_scaler : list cell -> list cell -> list cell.
Variable robust_scaler : list cell -> list cell -> list cell.

(** The numeric kernels return one cell per cell of the column they
    transform. *)
Hypothesis median_imputer_length :
  forall a b, length (median_imputer a b) = length b.
Hypothesis standard_scaler_length :
  forall a b, length (standard_scaler a b) = length b.
Hypothesis robust_scaler_length :
  forall a b, length (robust_scaler a b) = length b.

Lemma numeric_blocks_rows kernel k f t cols bs :
  (forall a b, length (kernel a b) = length b) ->
  rows k t -> numeric_blocks kernel f t cols = inr bs ->
  Forall (fun b => length (snd b) = k) bs.
Proof.
  intros Hk Hr H. eapply rmap_Forall; [exact H|]. intros n y _ Hy.
  unfold rbind in Hy. destruct (get_col n t) as [|c] eqn:Ec; [discriminate|].
  destruct (get_col n (fit_train f)) as [|ctr]; [discriminate|].
  injection Hy as <-. simpl. rewrite Hk. by apply (rows_col k t n).
Qed.

Lemma ohe_blocks_rows k f t bs :
  rows k t -> ohe_blocks f t = inr bs -> Forall (fun b => length (snd b) = k) bs.
Proof.
  intros Hr. unfold ohe_blocks, rbind.
  destruct (rmap _ _) as [|bss] eqn:E; [discriminate|]. intros [= <-].
  apply Forall_concat. eapply rmap_Forall; [exact E|]. intros nc y _ Hy.
  simpl in Hy. destruct (get_col (fst nc) t) as [|c] eqn:Ec; [discriminate|].
  destruct (forallb _ _); [|discriminate]. injection Hy as <-.
  apply List.Forall_map, List.Forall_forall. intros cat _. simpl.
  rewrite length_map. by apply (rows_col k t (fst nc)).
Qed.

Lemma transform_blocks_rows k f x bs :
  rows k x ->
  transform_blocks median_imputer standard_scaler robust_scaler f x = inr bs ->
  Forall (fun b => length (snd b) = k) bs.
Proof.
  intros Hr. unfold transform_blocks, rbind.
  destruct (rmap _ (p_cat_imp _)) as [|cc] eqn:E0; [discriminate|].
  destruct (cat_imputer_transform cc) as [|cb] eqn:E1; [discriminate|].
  destruct (numeric_blocks median_imputer _ _ _) as [|nb] eqn:E2; [discriminate|].
  destruct (ohe_blocks f x) as [|ob] eqn:E3; [discriminate|].
  destruct (numeric_blocks standard_scaler _ _ _) as [|sb] eqn:E4; [discriminate|].
  destruct (numeric_blocks robust_scaler _ _ _) as [|rb] eqn:E5; [discriminate|].
  intros [= <-]. rewrite !Forall_app. split; [|split; [|split; [|split; [|split]]]].
  - eapply cat_imputer_transform_rows; [|exact E1].
    eapply rmap_Forall; [exact E0|]. intros n c _ Hc. by apply (rows_col k x n).
  - exact (numeric_blocks_rows _ k _ _ _ _ median_imputer_length Hr E2).
  - exact (ohe_blocks_rows k _ _ _ Hr E3).
  - exact (numeric_blocks_rows _ k _ _ _ _ standard_scaler_length Hr E4).
  - exact (numeric_blocks_rows _ k _ _ _ _ robust_scaler_length Hr E5).
  - apply List.Forall_map. unfold rows in Hr.
    apply List.Forall_forall. intros c Hc%filter_In. simpl. rewrite length_map.
    by eapply List.Forall_forall in Hr; [|apply Hc].
Qed.

Lemma transform_rows k f t a :
  rows k t ->
  transform median_imputer standard_scaler robust_scaler f t = inr a ->
  Forall (fun vals => length vals = k) (arr_cols a).
Proof.
  intros Hr Ha. destruct (transform_inv _ _ _ _ _ _ Ha) as (x & bs & Hx & Hbs & Hh).
  eapply np_hstack_rows; [exact Hh|]. eapply transform_blocks_rows; [|exact Hbs].
  by eapply select_fitted_rows.
Qed.

(** X10: when every column of the training frame holds [k] cells, every
    column of the returned training frame holds [k] cells; likewise for the
    test frame with its own number of rows. *)
Theorem preproc_keeps_row_count X_train X_test auto OHE std rob num cat
    label_encode s xtr' xte' s' rtr ttr k :
  preproc median_imputer standard_scaler robust_scaler X_train X_test auto OHE
    std rob num cat label_encode s = (inr (xtr', xte'), s') ->
  X_train = PDataFrame rtr -> s !! rtr = Some ttr -> rows k ttr ->
  (exists t, s' !! xtr' = Some t /\ rows k t) /\
  (forall rte tte k', X_test = PDataFrame rte -> s !! rte = Some tte ->
     rows k' tte -> exists r t, xte' = Some r /\ s' !! r = Some t /\ rows k' t).
Proof.
  intros H -> Httr Hk.
  destruct (preproc_success_inv _ _ _ _ _ _ _ _ _ _ _ _ _ _ _ _ H)
    as (rtr' & le & t0 & f & names & ntr & s5 & [= <-] & _ & Ht0 & Hd & Hntr &
        Hle & Hte).
  rewrite Httr in Ht0. injection Ht0 as <-.
  split.
  - destruct Hd as (data & Hdata & Hmk).
    eapply label_encode_pass_rows; [exact Hle|exact Hntr|].
    eapply mk_frame_rows; [exact Hmk|]. by eapply transform_rows.
  - intros rte tte k' -> Htte Hk'. destruct xte' as [r|]; [|by destruct (Hte rte)].
    destruct Hte as (_ & rte' & tte' & nte & data & [= <-] & Htte' & Hdata &
                     Hmk & Hnte).
    rewrite lookup_app_l in Htte' by (by apply lookup_lt_Some in Htte).
    rewrite Htte in Htte'. injection Htte' as <-.
    destruct (label_encode_pass_rows k' _ _ _ _ _ r nte Hle Hnte) as (t & ? & ?).
    { eapply mk_frame_rows; [exact Hmk|]. by eapply transform_rows. }
    by exists r, t.
Qed.

(** X11: a run that succeeds on a test frame was given a test frame in
    which every column name of the training frame names exactly one
    column; the test frame may order its columns differently and hold
    further ones. *)
Theorem success_selects_train_columns X_test auto OHE std rob num cat
    label_encode s res s' rtr ttr rte tte :
  preproc median_imputer standard_scaler robust_scaler (PDataFrame rtr) X_test
    auto OHE std rob num cat label_encode s = (inr res, s') ->
  s !! rtr = Some ttr -> X_test = PDataFrame rte -> s !! rte = Some tte ->
  forall n, In n (df_names ttr) ->
    exists c, List.filter (fun c => String.eqb (col_name c) n) (df_cols tte) = [c].
Proof.
  intros H Httr -> Htte n Hn. destruct res as [xtr' xte'].
  apply preproc_success_plan in H
    as (rtr' & b & le & t0 & f & s5 & [= <-] & _ & _ & Ht0 & Hf & _ & Htest & _).
  rewrite Httr in Ht0. injection Ht0 as <-.
  destruct (Htest rte tte eq_refl Htte) as (a & _ & _ & Ha & _).
  destruct (transform_inv _ _ _ _ _ _ Ha) as (x & _ & Hx & _).
  destruct (fit_plan_eq _ _ _ Hf) as [_ Ht].
  unfold select_fitted, rbind in Hx.
  destruct (rmap _ _) as [|cols] eqn:E; [discriminate|].
  rewrite Ht in E. destruct (rmap_forall _ _ _ E n Hn) as (c & _ & Hc).
  exists c. by destruct (List.filter _ _) as [|? [|]]; try discriminate; injection Hc as ->.
Qed.

End Rows.

(** ** The further properties on concrete inputs *)

(** X1 on the grade list: "C" is preceded by "A" and "B". *)
Lemma label_code_counts_smaller_witness :
  In "C" ["F"; "D"; "C"; "B"; "A"] /\
  le_code (le_fit ["F"; "D"; "C"; "B"; "A"]) (CStr "C") =
    inr (CNum (Z.of_nat (length (List.filter (fun w => String.ltb w "C")
                                   (remove_dups ["F"; "D"; "C"; "B"; "A"]))))).
Proof.
  split; [simpl; tauto|].
  apply label_code_counts_smaller. simpl; tauto.
Defined.

(** X2 on a list with a repeated value. *)
Lemma label_code_roundtrip_witness :
  In "C" ["F"; "C"; "A"; "C"] /\
  exists i, le_code (le_fit ["F"; "C"; "A"; "C"]) (CStr "C") =
              inr (CNum (Z.of_nat i)) /\
    nth_error (le_fit ["F"; "C"; "A"; "C"]) i = Some "C" /\
    i < length (remove_dups ["F"; "C"; "A"; "C"]).
Proof.
  split; [simpl; tauto|].
  apply label_code_roundtrip. simpl; tauto.
Defined.

(** X3: the lists ["F"; "A"; "F"] and ["A"; "F"] encode the grade column
    the same way. *)
Lemma label_encode_pass_set_determined_witness :
  Forall2 (fun a b => fst a = fst b /\ forall x, In x (snd a) <-> In x (snd b))
    [("grade", ["F"; "A"; "F"])] [("grade", ["A"; "F"])] /\
  label_encode_pass [("grade", ["F"; "A"; "F"])] 0 None [grade_frame] =
  label_encode_pass [("grade", ["A"; "F"])] 0 None [grade_frame].
Proof.
  assert (H : Forall2 (fun a b => fst a = fst b /\
                         forall x, In x (snd a) <-> In x (snd b))
                [("grade", ["F"; "A"; "F"])] [("grade", ["A"; "F"])]).
  { constructor; [|constructor]. split; [reflexivity|]. intros x. simpl. tauto. }
  split; [exact H|]. apply label_encode_pass_set_determined. exact H.
Defined.

(** X5 on the grade frame, one-hot encoded, passed as train and test. *)
Lemma test_categories_seen_in_train_witness :
  exists res s',
    preproc (fun _ c => c) (fun _ c => c) (fun _ c => c) (PDataFrame 0)
      (PDataFrame 0) (PBool false) (PList ["grade"]) (PList []) (PList [])
      (PList []) (PList []) (PDict []) [grade_frame] = (inr res, s') /\
    [grade_frame] !! 0 = Some grade_frame /\
    exists rtr b ttr, PDataFrame 0 = PDataFrame rtr /\ PBool false = PBool b /\
      [grade_frame] !! rtr = Some ttr /\
      forall n, In n (p_ohe (plan_of b ttr (PList ["grade"]) (PList [])
                               (PList []) (PList []) (PList []))) ->
        exists ctr cte, get_col n ttr = inr ctr /\
          get_col n grade_frame = inr cte /\
          forall v, In v (col_vals cte) -> In v (col_vals ctr).
Proof.
  eexists _, _. split; [vm_compute; reflexivity|]. split; [reflexivity|].
  eapply (test_categories_seen_in_train (fun _ c => c) (fun _ c => c) (fun _ c => c) (PDataFrame 0) 0 grade_frame
           (PBool false) (PList ["grade"]) (PList []) (PList []) (PList [])
           (PList []) (PDict []) [grade_frame]); [vm_compute; reflexivity|reflexivity].
Defined.

(** X7 on the frame [a, b] imputing [b]. *)
Lemma manual_no_ohe_keeps_names_witness :
  seq_of (PList []) = [] /\
  exists xtr' xte' s',
    preproc (fun _ c => c) (fun _ c => c) (fun _ c => c) (PDataFrame 0) PNone
      (PBool false) (PList []) (PList []) (PList []) (PList [])
      (PList ["b"]) (PDict []) [ab_frame] = (inr (xtr', xte'), s') /\
    exists rtr ttr t', PDataFrame 0 = PDataFrame rtr /\
      [ab_frame] !! rtr = Some ttr /\ s' !! xtr' = Some t' /\
      df_names t' = df_names ttr.
Proof.
  split; [reflexivity|]. do 3 eexists. split; [vm_compute; reflexivity|].
  eapply (manual_no_ohe_keeps_names (fun _ c => c) (fun _ c => c) (fun _ c => c) (PDataFrame 0) PNone (PList [])
           (PList []) (PList []) (PList []) (PList ["b"]) (PDict []) [ab_frame]);
    [reflexivity|]. vm_compute. reflexivity.
Defined.

(** X8 on the grade frame with [categorical_impute=["age"]]. *)
Lemma manual_missing_column_not_a_column_witness :
  args_ok (preproc_args (PDataFrame 0) PNone (PBool false) (PList [])
             (PList []) (PList []) (PList []) (PList ["age"]) (PDict [])) = true /\
  ~ In "age" (df_names grade_frame) /\
  fst (preproc (fun _ c => c) (fun _ c => c) (fun _ c => c) (PDataFrame 0)
         PNone (PBool false) (PList []) (PList []) (PList []) (PList [])
         (PList ["age"]) (PDict []) [grade_frame]) = inl NotAColumn.
Proof.
  assert (H5 : ~ In "age" (df_names grade_frame))
    by (simpl; intros [H|[]]; discriminate H).
  split; [reflexivity|]. split; [exact H5|].
  apply (manual_missing_column_not_a_column (fun _ c => c) (fun _ c => c)
           (fun _ c => c) 0 grade_frame PNone (PList []) (PList []) (PList [])
           (PList []) (PList ["age"]) [] [grade_frame] "age");
    first [ reflexivity | exact H5 | (intros r Hr; discriminate Hr)
          | (simpl; tauto) | (apply NoDup_singleton) ].
Defined.

(** X9 on the grade frame in automatic mode with a one-hot list. *)
Lemma config_conflict_only_from_auto_witness :
  fst (preproc (fun _ c => c) (fun _ c => c) (fun _ c => c) (PDataFrame 0)
         PNone (PBool true) (PList ["grade"]) (PList []) (PList []) (PList [])
         (PList []) (PDict []) [grade_frame]) = inl ConfigConflict /\
  PBool true = PBool true /\
  (0 < py_len (PList ["grade"]) \/ 0 < py_len (PList []) \/
   0 < py_len (PList []) \/ 0 < py_len (PList []) \/ 0 < py_len (PList []) \/
   exists l, PDict [] = PDict l /\ l <> []).
Proof.
  split; [vm_compute; reflexivity|].
  apply (config_conflict_only_from_auto (fun _ c => c) (fun _ c => c) (fun _ c => c) (PDataFrame 0) PNone (PBool true)
           (PList ["grade"]) (PList []) (PList []) (PList []) (PList []) (PDict [])
           [grade_frame]).
  vm_compute. reflexivity.
Defined.

(** X10 on the frame [a, b] (two rows) passed as train and test, with
    length-preserving kernels. *)
Lemma preproc_keeps_row_count_witness :
  (forall a b : list cell, length ((fun _ c => c) a b) = length b) /\
  exists xtr' xte' s',
    preproc (fun _ c => c) (fun _ c => c) (fun _ c => c) (PDataFrame 0)
      (PDataFrame 0) (PBool false) (PList []) (PList ["a"]) (PList [])
      (PList []) (PList ["b"]) (PDict []) [ab_frame] = (inr (xtr', xte'), s') /\
    [ab_frame] !! 0 = Some ab_frame /\ rows 2 ab_frame /\
    (exists t, s' !! xtr' = Some t /\ rows 2 t) /\
    (forall rte tte k', PDataFrame 0 = PDataFrame rte -> [ab_frame] !! rte = Some tte ->
       rows k' tte -> exists r t, xte' = Some r /\ s' !! r = Some t /\ rows k' t).
Proof.
  assert (Hk : forall a b : list cell, length ((fun _ c => c) a b) = length b)
    by reflexivity.
  assert (Hr : rows 2 ab_frame) by (repeat constructor).
  split; [exact Hk|]. do 3 eexists. split; [vm_compute; reflexivity|].
  split; [reflexivity|]. split; [exact Hr|].
  eapply (preproc_keeps_row_count _ _ _ Hk Hk Hk (PDataFrame 0) (PDataFrame 0)
           (PBool false) (PList []) (PList ["a"]) (PList []) (PList [])
           (PList ["b"]) (PDict []) [ab_frame]);
    [vm_compute; reflexivity|reflexivity|reflexivity|exact Hr].
Defined.

(** X11 on the frame [a, b] with a one-row test frame that lists [b]
    before [a] and has a further column [c]. *)
Lemma success_selects_train_columns_witness :
  exists res s',
    preproc (fun _ c => c) (fun _ c => c) (fun _ c => c) (PDataFrame 0)
      (PDataFrame 1) (PBool false) (PList []) (PList ["a"]) (PList [])
      (PList []) (PList ["b"]) (PDict [])
      [ab_frame; mkDF [mkcol "b" DObject [CStr "y"]; mkcol "c" DBool [CBool true];
                       mkcol "a" DInt64 [CNum 5]]] =
      (inr res, s') /\
    exists c, List.filter (fun c => String.eqb (col_name c) "a")
                (df_cols (mkDF [mkcol "b" DObject [CStr "y"];
                                mkcol "c" DBool [CBool true];
                                mkcol "a" DInt64 [CNum 5]])) = [c].
Proof.
  eexists _, _. split; [vm_compute; reflexivity|].
  eapply (success_selects_train_columns (fun _ c => c) (fun _ c => c)
           (fun _ c => c) (PDataFrame 1) (PBool false)
           (PList []) (PList ["a"]) (PList []) (PList []) (PList ["b"]) (PDict [])
           [ab_frame; mkDF [mkcol "b" DObject [CStr "y"];
                            mkcol "c" DBool [CBool true];
                            mkcol "a" DInt64 [CNum 5]]]
           _ _ 0 ab_frame 1);
    [vm_compute; reflexivity|reflexivity|reflexivity|reflexivity|simpl; tauto].
Defined.
